(** * mAICookbook server: conversation store, answering pipeline, transport,
      document loader and chunker of [server.py], embedded in Rocq.

    Python objects are modelled as follows.
    - [str] is [string] (the UTF-8 bytes of the text).
    - A raised exception is a [PyExn] (class name and message); a call that
      may raise returns a [Result].
    - The [Server] object is threaded explicitly; a method that mutates it
      and may raise has type [M A]: it returns the outcome together with
      the server as the call left it (an exception never rolls back what
      was mutated before it).
    - [uuid.uuid4()], [time.time()], the query engine built on the index and
      the semantic splitter are external collaborators: their results are
      arguments of the functions that call them. *)

From Stdlib Require Import List String Ascii ZArith Lia Bool.
From Stdlib Require Import Sorting.Sorted Sorting.Permutation.
From Equations Require Import Equations.
From Equations.Prop Require Import Logic.
Import ListNotations.
Open Scope string_scope.
Open Scope list_scope.

(** ** Python values and exceptions *)

Module Py.

Record PyExn : Type := mkExn { exn_class : string; exn_msg : string }.

(** [str(e)] of an exception built from one message argument. *)
Definition str (e : PyExn) : string := exn_msg e.

Definition ValueError (msg : string) : PyExn := mkExn "ValueError" msg.

Inductive Result (A : Type) : Type :=
| Return (a : A)
| Raise (e : PyExn).
Arguments Return {A} a.
Arguments Raise {A} e.

(** [sep.join(it)] over an iterable of strings. *)
Fixpoint join (sep : string) (parts : list string) : string :=
  match parts with
  | [] => ""
  | [p] => p
  | p :: rest => (p ++ sep ++ join sep rest)%string
  end.

(** Iterating over a [str] yields its one-character strings. *)
Fixpoint iter_str (s : string) : list string :=
  match s with
  | EmptyString => []
  | String c s' => String c EmptyString :: iter_str s'
  end.

(** [itertools.islice(it, n)] consumed into a list: the first [n] items,
    and the iterator that is left. *)
Definition islice {A : Type} (it : list A) (n : nat) : list A * list A :=
  (firstn n it, skipn n it).

End Py.
Import Py.

(** ** Conversation store *)

(** [class Message(BaseModel)] *)
Record Message : Type := mkMessage { role : string; content : string }.

(** The dict [message.model_dump()] produces, as its items in field order. *)
Definition MessageDict : Type := list (string * string).

Definition model_dump (m : Message) : MessageDict :=
  [("role", role m); ("content", content m)].

(** A conversation dict [{"id": ..., "start_time": ..., "messages": [...]}].
    [start_time] is a [time.time()] reading; only its order is used, so it
    is kept as an integer number of clock ticks. *)
Record Conversation : Type := mkConversation {
  id : string;
  start_time : Z;
  messages : list MessageDict
}.

(** An event at the boundary with the retrieval and generation library. *)
Inductive Event : Type :=
| AsQueryEngine
| Query (q : string).

(** The [Server] object: [conversations] as in the source; [engine_trace]
    records, oldest first, the calls made so far on [self.index] and the
    query engine (the library objects themselves are not modelled). *)
Record Server : Type := mkServer {
  conversations : list Conversation;
  engine_trace : list Event
}.

(** [Server.__init__] *)
Definition init : Server := mkServer [] [].

Definition set_conversations (cs : list Conversation) (s : Server) : Server :=
  mkServer cs (engine_trace s).

Definition log_event (ev : Event) (s : Server) : Server :=
  mkServer (conversations s) (engine_trace s ++ [ev]).

(** Stateful, fallible methods. *)
Definition M (A : Type) : Type := Server -> Result A * Server.

Definition ret {A : Type} (a : A) : M A := fun s => (Return a, s).

Definition raise {A : Type} (e : PyExn) : M A := fun s => (Raise e, s).

Definition bind {A B : Type} (m : M A) (k : A -> M B) : M B :=
  fun s =>
    match m s with
    | (Return a, s') => k a s'
    | (Raise e, s') => (Raise e, s')
    end.

Declare Scope py_scope.
Delimit Scope py_scope with py.
Notation "x <- m ;; k" := (bind m (fun x => k))
  (at level 61, m at next level, right associativity) : py_scope.
Notation "m ;;; k" := (bind m (fun _ => k))
  (at level 61, right associativity) : py_scope.

(** [list.sort(key=key, reverse=True)]: the stable sort into descending key
    order (items with equal keys keep their relative order). [insert_desc]
    places an item that originally came first in front of the items whose
    key is not greater than its own. *)
Fixpoint insert_desc {A : Type} (key : A -> Z) (x : A) (l : list A) : list A :=
  match l with
  | [] => [x]
  | y :: l' =>
      if (key x <? key y)%Z then y :: insert_desc key x l' else x :: y :: l'
  end.

Fixpoint sort_reverse {A : Type} (key : A -> Z) (l : list A) : list A :=
  match l with
  | [] => []
  | x :: l' => insert_desc key x (sort_reverse key l')
  end.

(** [Server.start_new_conversation]; [uuid4] is the value of
    [str(uuid.uuid4())] and [now] the value of [time.time()] at this call. *)
Definition start_new_conversation (uuid4 : string) (now : Z) (s : Server)
  : string * Server :=
  let conversation_id := uuid4 in
  let appended := conversations s ++ [mkConversation conversation_id now []] in
  (conversation_id, set_conversations (sort_reverse start_time appended) s).

(** The loop of [store_message] over [self.conversations]: append to the
    first conversation with the id; [None] when the loop falls through. *)
Fixpoint append_to_first (conversation_id : string) (d : MessageDict)
    (cs : list Conversation) : option (list Conversation) :=
  match cs with
  | [] => None
  | conversation :: rest =>
      if String.eqb (id conversation) conversation_id
      then Some (mkConversation (id conversation) (start_time conversation)
                   (messages conversation ++ [d]) :: rest)
      else option_map (cons conversation)
             (append_to_first conversation_id d rest)
  end.

Definition not_found_msg (conversation_id : string) : string :=
  ("Conversation ID " ++ conversation_id ++ " not found.")%string.

(** [Server.store_message] *)
Definition store_message (conversation_id : string) (message : Message)
  : M unit :=
  fun s =>
    match append_to_first conversation_id (model_dump message)
            (conversations s) with
    | Some cs => (Return tt, set_conversations cs s)
    | None => (Raise (ValueError (not_found_msg conversation_id)), s)
    end.

(** The loop of [get_conversation]. *)
Fixpoint first_with_id (conversation_id : string) (cs : list Conversation)
  : option Conversation :=
  match cs with
  | [] => None
  | conversation :: rest =>
      if String.eqb (id conversation) conversation_id
      then Some conversation
      else first_with_id conversation_id rest
  end.

(** [Server.get_conversation] *)
Definition get_conversation (conversation_id : string) (s : Server)
  : Result (list MessageDict) :=
  match first_with_id conversation_id (conversations s) with
  | Some conversation => Return (messages conversation)
  | None => Raise (ValueError (not_found_msg conversation_id))
  end.

(** A summary dict [{"id": ..., "start_time": ...}]. *)
Record Summary : Type := mkSummary { summary_id : string; summary_start_time : Z }.

Definition summary (c : Conversation) : Summary :=
  mkSummary (id c) (start_time c).

(** [Server.get_all_conversations] *)
Definition get_all_conversations (s : Server) : list Summary :=
  map summary (conversations s).

(** ** Answering pipeline *)

(** The retrieval and generation library as [serve] sees it. Each call is
    given the trace of the calls made before it, so a result may depend on
    anything that happened at this boundary, and on nothing else.
    [as_query_engine] is [self.index.as_query_engine(...)]: [None] when it
    returns the engine, [Some e] when it raises [e]. [query] is
    [query_engine.query(q)]: the text [response.response], or the exception
    raised. *)
Record Engine : Type := mkEngine {
  as_query_engine : list Event -> option PyExn;
  query : list Event -> string -> Result string
}.

Definition index_as_query_engine (engine : Engine) : M unit :=
  fun s =>
    match as_query_engine engine (engine_trace s) with
    | None => (Return tt, log_event AsQueryEngine s)
    | Some e => (Raise e, log_event AsQueryEngine s)
    end.

Definition query_engine_query (engine : Engine) (q : string) : M string :=
  fun s => (query engine (engine_trace s) q, log_event (Query q) s).

(** [Server.serve] *)
Definition serve (engine : Engine) (user_message conversation_id : string)
  : M string :=
  (store_message conversation_id (mkMessage "user" user_message) ;;;
   index_as_query_engine engine ;;;
   response <- query_engine_query engine user_message ;;
   store_message conversation_id (mkMessage "assistant" response) ;;;
   ret response)%py.

(** ** Transport: the FastAPI endpoints *)

(** [class RequestBody(BaseModel)] *)
Record RequestBody : Type := mkRequestBody {
  body_conversation_id : string;
  body_user_message : string;
  body_messages : list Message
}.

(** The JSON object an endpoint returns. *)
Inductive Body : Type :=
| ResponseBody (response : string)
| ConversationIdBody (conversation_id : string)
| HistoryBody (history : list MessageDict)
| ConversationsBody (summaries : list Summary).

(** What an endpoint hands to the framework: a body (sent with status 200)
    or a raised [HTTPException]. *)
Inductive HttpOutcome : Type :=
| Respond (body : Body)
| HTTPException (status_code : Z) (detail : string).

Definition status (r : HttpOutcome) : Z :=
  match r with
  | Respond _ => 200
  | HTTPException status_code _ => status_code
  end.

(** Status classes of HTTP: 4xx is a client error, 5xx a server error. *)
Definition is_client_error (r : HttpOutcome) : bool :=
  ((400 <=? status r) && (status r <? 500))%Z.

Definition is_server_error (r : HttpOutcome) : bool :=
  ((500 <=? status r) && (status r <? 600))%Z.

(** The handler shape shared by the four endpoints:
    [try: return {...}  except Exception as e:
       raise HTTPException(status_code=500, detail=str(e))]. *)
Definition try_except_500 {A : Type} (m : M A) (to_body : A -> Body)
  : Server -> HttpOutcome * Server :=
  fun s =>
    match m s with
    | (Return a, s') => (Respond (to_body a), s')
    | (Raise e, s') => (HTTPException 500 (str e), s')
    end.

(** [POST /chat] *)
Definition query_pipeline (engine : Engine) (body : RequestBody)
  : Server -> HttpOutcome * Server :=
  let conversation_id := body_conversation_id body in
  let user_message := body_user_message body in
  try_except_500 (serve engine user_message conversation_id)
    (fun response_gen => ResponseBody (join "" (iter_str response_gen))).

(** [POST /start_conversation] *)
Definition start_conversation (uuid4 : string) (now : Z)
  : Server -> HttpOutcome * Server :=
  try_except_500
    (fun s => let (conversation_id, s') := start_new_conversation uuid4 now s in
              (Return conversation_id, s'))
    ConversationIdBody.

(** [GET /history/{conversation_id}] *)
Definition get_conversation_history (conversation_id : string)
  : Server -> HttpOutcome * Server :=
  try_except_500 (fun s => (get_conversation conversation_id s, s)) HistoryBody.

(** [GET /all_conversations] *)
Definition all_conversations : Server -> HttpOutcome * Server :=
  try_except_500 (fun s => (Return (get_all_conversations s), s))
    ConversationsBody.

(** ** Document loader *)

(** A cell of the recipe table as [pd.read_csv] delivers it: [NaN] where the
    CSV has no value, otherwise a value, kept as the text an f-string
    renders for it. *)
Inductive Cell : Type :=
| NaN
| Value (text : string).

(** [pd.isna(cell)] *)
Definition isna (c : Cell) : bool :=
  match c with
  | NaN => true
  | Value _ => false
  end.

(** [f"{cell}"] *)
Definition fmt (c : Cell) : string :=
  match c with
  | NaN => "nan"
  | Value text => text
  end.

(** A row of the table ([pd.Series]); the field [X_Y] is the column "X Y". *)
Record Row : Type := mkRow {
  name : Cell;
  Category : Cell;
  Ingredients : Cell;
  Preparation_Time : Cell;
  Total_Time : Cell;
  Number_of_Servings : Cell;
  Keywords : Cell;
  Instructions : Cell
}.

(** [recipe_text_template], statement by statement. *)
Definition recipe_text_template (row : Row) : string :=
  let template :=
    ("Η συνταγή για " ++ fmt (name row) ++ " είναι ένα "
       ++ fmt (Category row) ++ " που "
       ++ "χρειάζεται τα εξής υλικά: " ++ fmt (Ingredients row) ++ ". ")%string in
  let template :=
    if negb (isna (Preparation_Time row))
    then (template ++ "Έχει χρόνο προετοιμασίας "
            ++ fmt (Preparation_Time row) ++ " ")%string
    else template in
  let template :=
    if negb (isna (Total_Time row))
    then (template ++ "και συνολικά παίρνει "
            ++ fmt (Total_Time row) ++ ". ")%string
    else template in
  let template :=
    if negb (isna (Number_of_Servings row))
    then (template ++ "Οι μερίδες που φτιάχνει είναι "
            ++ fmt (Number_of_Servings row) ++ ". ")%string
    else template in
  let template :=
    if negb (isna (Keywords row))
    then (template
            ++ "Χαρακτηριστικές λέξεις που περιγράφουν αυτή τη συνταγή είναι: "
            ++ fmt (Keywords row) ++ ".")%string
    else template in
  let template :=
    if negb (isna (Instructions row))
    then (template ++ "Ο τρόπος προετοιμασίας είναι ο εξής: "
            ++ fmt (Instructions row) ++ ".")%string
    else template in
  template.

(** [Document(text=t)] *)
Record Document : Type := mkDocument { text : string }.

(** [load_documents] over the rows that [pd.read_csv] returned. *)
Definition load_documents (recipes : list Row) : list Document :=
  map mkDocument (map recipe_text_template recipes).

(** The template as the specification words it: a head over the three
    fields every record has, then one clause per optional field, in a fixed
    order, each rendered only when its field is present. *)
Definition head_clause (row : Row) : string :=
  ("Η συνταγή για " ++ fmt (name row) ++ " είναι ένα "
     ++ fmt (Category row) ++ " που χρειάζεται τα εξής υλικά: "
     ++ fmt (Ingredients row) ++ ". ")%string.

Definition preparation_time_clause (v : string) : string :=
  ("Έχει χρόνο προετοιμασίας " ++ v ++ " ")%string.

Definition total_time_clause (v : string) : string :=
  ("και συνολικά παίρνει " ++ v ++ ". ")%string.

Definition servings_clause (v : string) : string :=
  ("Οι μερίδες που φτιάχνει είναι " ++ v ++ ". ")%string.

Definition keywords_clause (v : string) : string :=
  ("Χαρακτηριστικές λέξεις που περιγράφουν αυτή τη συνταγή είναι: "
     ++ v ++ ".")%string.

Definition instructions_clause (v : string) : string :=
  ("Ο τρόπος προετοιμασίας είναι ο εξής: " ++ v ++ ".")%string.

(** The optional fields with their renderers, in template order. *)
Definition optional_rules : list ((Row -> Cell) * (string -> string)) :=
  [ (Preparation_Time, preparation_time_clause);
    (Total_Time, total_time_clause);
    (Number_of_Servings, servings_clause);
    (Keywords, keywords_clause);
    (Instructions, instructions_clause) ].

(** The clause of one rule on a row: rendered when the field is present,
    nothing otherwise. *)
Definition clause_of (row : Row) (rule : (Row -> Cell) * (string -> string))
  : list string :=
  match fst rule row with
  | NaN => []
  | Value v => [snd rule v]
  end.

Definition render_by_rules (row : Row) : string :=
  (head_clause row
     ++ String.concat "" (flat_map (clause_of row) optional_rules))%string.

(** A record without preparation time, serving count and instructions. *)
Definition moussaka : Row :=
  mkRow (Value "Μουσακάς") (Value "Κυρίως πιάτο")
    (Value "μελιτζάνες, κιμάς, πατάτες") NaN (Value "90 λεπτά") NaN
    (Value "φούρνος, παραδοσιακό") NaN.

(** [needle in haystack] on strings. *)
Fixpoint contains (needle haystack : string) : bool :=
  String.prefix needle haystack ||
  match haystack with
  | EmptyString => false
  | String _ rest => contains needle rest
  end.

(** ** Chunker *)

(** The generator [batch(iterable, n)] of [chunk_documents], run to its
    end: [while chunk := list(islice(it, n)): yield chunk]. The batch size
    is a natural number: [islice] accepts no negative stop. *)
Equations? batch {A : Type} (it : list A) (n : nat) : list (list A)
  by wf (List.length it) lt :=
  batch it n with inspect (islice it n) => {
    | exist _ ([], _) _ => [];
    | exist _ (chunk, rest) _ => chunk :: batch rest n }.
Proof.
  destruct n as [|n]; [discriminate|].
  destruct it as [|x it]; [discriminate|].
  simpl. pose proof (List.length_skipn n it). lia.
Qed.

(** The semantic splitter, [splitter.get_nodes_from_documents(doc_batch)]:
    the nodes of a batch, or the exception raised (for instance when the
    embedding model is unavailable). *)
Definition Splitter (Node : Type) : Type := list Document -> Result (list Node).

(** The [for doc_batch in batch(...)] loop with its accumulator [nodes]. *)
Fixpoint extend_over {Node : Type} (splitter : Splitter Node)
    (batches : list (list Document)) (nodes : list Node) : Result (list Node) :=
  match batches with
  | [] => Return nodes
  | doc_batch :: later =>
      match splitter doc_batch with
      | Return batch_nodes => extend_over splitter later (nodes ++ batch_nodes)
      | Raise e => Raise e
      end
  end.

(** [Server.chunk_documents]. [new_splitter] is the outcome of building
    [SemanticSplitterNodeParser(...)], which happens before the loop: the
    splitter, or the exception the construction raised (then no batch is
    looked at). *)
Definition chunk_documents {Node : Type} (new_splitter : Result (Splitter Node))
    (documents : list Document) (batch_size : nat) : Result (list Node) :=
  match new_splitter with
  | Raise e => Raise e
  | Return splitter =>
      let nodes := [] in
      extend_over splitter (batch documents batch_size) nodes
  end.

(** The loop and its result, batch by batch: the splitter applied to each
    batch in order, stopping at the first exception. *)
Fixpoint split_each {Node : Type} (splitter : Splitter Node)
    (batches : list (list Document)) : Result (list (list Node)) :=
  match batches with
  | [] => Return []
  | doc_batch :: later =>
      match splitter doc_batch with
      | Return batch_nodes =>
          match split_each splitter later with
          | Return outs => Return (batch_nodes :: outs)
          | Raise e => Raise e
          end
      | Raise e => Raise e
      end
  end.

Definition result_map {A B : Type} (f : A -> B) (r : Result A) : Result B :=
  match r with
  | Return a => Return (f a)
  | Raise e => Raise e
  end.

(** ** Call sequences *)

(** [store_message(conversation_id, m)] for each [m] of a list, in order. *)
Fixpoint store_all (conversation_id : string) (ms : list Message) : M unit :=
  match ms with
  | [] => ret tt
  | m :: later => (store_message conversation_id m ;;; store_all conversation_id later)%py
  end.

(** Successive [start_new_conversation()] calls; each draw is the pair of
    the uuid and the clock reading of one call. Returns the ids in call
    order and the final server. *)
Fixpoint start_all (draws : list (string * Z)) (s : Server)
  : list string * Server :=
  match draws with
  | [] => ([], s)
  | (uuid4, now) :: later =>
      let (conversation_id, s1) := start_new_conversation uuid4 now s in
      let (ids, s2) := start_all later s1 in
      (conversation_id :: ids, s2)
  end.

(** The conversation a [start_new_conversation()] call creates. *)
Definition fresh_conversation (draw : string * Z) : Conversation :=
  mkConversation (fst draw) (snd draw) [].

(** The calls a client of the store can make on it. *)
Inductive Op : Type :=
| StartNewConversation (uuid4 : string) (now : Z)
| StoreMessage (conversation_id : string) (message : Message).

(** The server after one call (whether it returned or raised). *)
Definition run_op (op : Op) (s : Server) : Server :=
  match op with
  | StartNewConversation uuid4 now => snd (start_new_conversation uuid4 now s)
  | StoreMessage conversation_id message =>
      snd (store_message conversation_id message s)
  end.

Definition run_ops (ops : list Op) (s : Server) : Server :=
  fold_left (fun st op => run_op op st) ops s.

(** The summaries of the conversations a call sequence starts. *)
Definition started (ops : list Op) : list Summary :=
  flat_map (fun op =>
              match op with
              | StartNewConversation uuid4 now => [mkSummary uuid4 now]
              | StoreMessage _ _ => []
              end) ops.

(** Descending key order: [a] may stand before [b]. *)
Definition key_ge {A : Type} (key : A -> Z) (a b : A) : Prop :=
  (key b <= key a)%Z.

(** Descending order of start times, on summaries. *)
Definition newer_or_same (a b : Summary) : Prop :=
  (summary_start_time b <= summary_start_time a)%Z.

(** A conversation with one more message at the end of its log. *)
Definition with_message (c : Conversation) (d : MessageDict) : Conversation :=
  mkConversation (id c) (start_time c) (messages c ++ [d]).

(** The retrieval and generation step of [serve] on query [q], started
    with trace [tr], raises [e]. *)
Definition engine_raises (engine : Engine) (tr : list Event) (q : string)
    (e : PyExn) : Prop :=
  as_query_engine engine tr = Some e
  \/ (as_query_engine engine tr = None
      /\ query engine (tr ++ [AsQueryEngine]) q = Raise e).

(** ** Further notions used by the properties below *)

(** The conversations started at clock reading [t], in registry order. *)
Definition started_at (t : Z) (cs : list Conversation) : list Conversation :=
  filter (fun c => (start_time c =? t)%Z) cs.

(** A splitter that treats each document on its own: the nodes of a batch
    are the nodes of its documents, in order. *)
Definition document_wise {Node : Type} (g : Document -> list Node)
  : Splitter Node :=
  fun doc_batch => Return (flat_map g doc_batch).

(** [Server.on_startup], up to the nodes it hands to [VectorStoreIndex]:
    the documents of the recipe table, chunked in batches of 32.
    [on_startup] sets the embedding model before it chunks, so the splitter
    is built; [splitter] is the one built. *)
Definition on_startup_nodes {Node : Type} (splitter : Splitter Node)
    (recipes : list Row) : Result (list Node) :=
  let documents := load_documents recipes in
  chunk_documents (Return splitter) documents 32.

(** ** Request validation in front of [POST /chat] *)

(** A parsed JSON value (a number is kept as an integer: no field of the
    request model accepts one). *)
Local Unset Elimination Schemes.
Inductive Json : Type :=
| JNull
| JBool (b : bool)
| JNumber (n : Z)
| JString (s : string)
| JArray (items : list Json)
| JObject (members : list (string * Json)).
Local Set Elimination Schemes.

(** The value of a key in a parsed object; of a repeated key the last
    value counts, as in [json.loads]. *)
Fixpoint member (key : string) (members : list (string * Json))
  : option Json :=
  match members with
  | [] => None
  | (k, v) :: rest =>
      match member key rest with
      | Some later => Some later
      | None => if String.eqb k key then Some v else None
      end
  end.

(** A field annotated [str]: only a JSON string passes. *)
Definition validate_str (j : Json) : option string :=
  match j with
  | JString s => Some s
  | _ => None
  end.

(** A required field: missing or invalid gives [None]. *)
Definition validate_field {A : Type} (validate : Json -> option A)
    (key : string) (members : list (string * Json)) : option A :=
  match member key members with
  | Some j => validate j
  | None => None
  end.

(** [Message] from a JSON value: an object with string [role] and
    [content]; other keys are ignored. *)
Definition validate_Message (j : Json) : option Message :=
  match j with
  | JObject members =>
      match validate_field validate_str "role" members,
            validate_field validate_str "content" members with
      | Some r, Some c => Some (mkMessage r c)
      | _, _ => None
      end
  | _ => None
  end.

Fixpoint validate_all {A : Type} (validate : Json -> option A)
    (items : list Json) : option (list A) :=
  match items with
  | [] => Some []
  | j :: rest =>
      match validate j, validate_all validate rest with
      | Some a, Some others => Some (a :: others)
      | _, _ => None
      end
  end.

(** A field annotated [List[Message]]. *)
Definition validate_messages (j : Json) : option (list Message) :=
  match j with
  | JArray items => validate_all validate_Message items
  | _ => None
  end.

(** [RequestBody] from the JSON body of a request: all three fields are
    required. *)
Definition validate_RequestBody (j : Json) : option RequestBody :=
  match j with
  | JObject members =>
      match validate_field validate_str "conversation_id" members,
            validate_field validate_str "user_message" members,
            validate_field validate_messages "messages" members with
      | Some conversation_id, Some user_message, Some msgs =>
          Some (mkRequestBody conversation_id user_message msgs)
      | _, _, _ => None
      end
  | _ => None
  end.

(** What the framework answers to a request: the outcome of the handler,
    or status 422 when the body does not validate against the parameter's
    model (the handler is then not called). *)
Inductive Answer : Type :=
| Handled (r : HttpOutcome)
| Unprocessable.

Definition answer_status (a : Answer) : Z :=
  match a with
  | Handled r => status r
  | Unprocessable => 422
  end.

(** [POST /chat] with a JSON body, [body: RequestBody] being the handler's
    parameter. *)
Definition post_chat (engine : Engine) (json : Json) (s : Server)
  : Answer * Server :=
  match validate_RequestBody json with
  | Some body =>
      let (r, s') := query_pipeline engine body s in (Handled r, s')
  | None => (Unprocessable, s)
  end.

(** The JSON body of a chat request with the given three fields. *)
Definition chat_json (conversation_id user_message : string) (msgs : Json)
  : Json :=
  JObject [("conversation_id", JString conversation_id);
           ("user_message", JString user_message);
           ("messages", msgs)].

(** ** Client: the request helpers of [app.py] *)

Module App.

(** What [requests.post] or [requests.get] gives the client: the answer of
    an endpoint, or a [RequestException] raised before any answer came. *)
Inductive Reply : Type :=
| NoConnection
| Received (r : HttpOutcome).

(** [response.raise_for_status()] raises an [HTTPError], which is a
    [RequestException], exactly for the statuses 400 to 599. *)
Definition raises_for_status (r : HttpOutcome) : bool :=
  ((400 <=? status r) && (status r <? 600))%Z.

(** [response.json().get("response")]: the JSON of a body is the object
    with its one key; the JSON of an [HTTPException] is [{"detail": ...}]. *)
Definition json_get_response (r : HttpOutcome) : option string :=
  match r with
  | Respond (ResponseBody response) => Some response
  | _ => None
  end.

(** [response.json().get("history")] *)
Definition json_get_history (r : HttpOutcome) : option (list MessageDict) :=
  match r with
  | Respond (HistoryBody history) => Some history
  | _ => None
  end.

(** [response.json().get("conversations")] *)
Definition json_get_conversations (r : HttpOutcome) : option (list Summary) :=
  match r with
  | Respond (ConversationsBody summaries) => Some summaries
  | _ => None
  end.

(** [dict.get(key, default)] on the lookups above. *)
Definition get_or {A : Type} (found : option A) (default : A) : A :=
  match found with
  | Some a => a
  | None => default
  end.

(** [fetch_all_conversations], given the reply to its GET; the second
    component is the text passed to [st.error], if any. *)
Definition fetch_all_conversations (reply : Reply)
  : list Summary * option string :=
  match reply with
  | Received r =>
      if raises_for_status r
      then ([], Some "Failed to fetch conversations. Please try again.")
      else (get_or (json_get_conversations r) [], None)
  | NoConnection => ([], Some "Failed to fetch conversations. Please try again.")
  end.

(** [fetch_conversation_history], given the reply to its GET. *)
Definition fetch_conversation_history (reply : Reply)
  : list MessageDict * option string :=
  match reply with
  | Received r =>
      if raises_for_status r
      then ([], Some "Failed to fetch conversation history. Please try again.")
      else (get_or (json_get_history r) [], None)
  | NoConnection =>
      ([], Some "Failed to fetch conversation history. Please try again.")
  end.

Definition trouble_connecting : string :=
  "I'm having trouble connecting to the server. Please try again later.".

(** [query_fastapi], given the reply to its POST. *)
Definition query_fastapi (reply : Reply) : string :=
  match reply with
  | Received r =>
      if raises_for_status r
      then trouble_connecting
      else get_or (json_get_response r) "No response from server."
  | NoConnection => trouble_connecting
  end.

(** The payload [query_fastapi] posts; [session_messages] is the message
    list of the session as the request model reads it. *)
Definition chat_payload (user_message conversation_id : string)
    (session_messages : list Message) : RequestBody :=
  mkRequestBody conversation_id user_message session_messages.

(** [query_fastapi] against a server that is reached: the text the user is
    shown and the server after the request. *)
Definition ask (engine : Engine) (user_message conversation_id : string)
    (session_messages : list Message) (s : Server) : string * Server :=
  let payload := chat_payload user_message conversation_id session_messages in
  let (r, s') := query_pipeline engine payload s in
  (query_fastapi (Received r), s').

(** The characters that stand for themselves in a URL path and take no
    part in quoting or routing: ASCII letters, digits and the hyphen (the
    characters of a [str(uuid.uuid4())]). *)
Definition plain_char (c : ascii) : bool :=
  let n := nat_of_ascii c in
  (Nat.leb 48 n && Nat.leb n 57) || (Nat.leb 65 n && Nat.leb n 90)
  || (Nat.leb 97 n && Nat.leb n 122) || Nat.eqb n 45.

Fixpoint all_plain (s : string) : bool :=
  match s with
  | EmptyString => true
  | String c rest => plain_char c && all_plain rest
  end.

Definition plain_id (conversation_id : string) : bool :=
  negb (String.eqb conversation_id "") && all_plain conversation_id.

(** [fetch_conversation_history] against a server that is reached. The
    client pastes the id into the URL [f"{HISTORY_URL}/{conversation_id}"]
    as it is. For a non-empty id of plain characters that path has the id
    as its last segment and the router hands exactly it to the handler.
    For any other id (empty, or holding a slash, a question mark, a hash,
    a percent sign, a dot, ...) what the handler receives, if it is called
    at all, depends on URL quoting and routing, which are not modelled:
    [None]. *)
Definition history_of (conversation_id : string) (s : Server)
  : option (list MessageDict * option string) :=
  if plain_id conversation_id
  then Some (fetch_conversation_history
               (Received (fst (get_conversation_history conversation_id s))))
  else None.

(** [fetch_all_conversations] against a server that is reached. *)
Definition sidebar_of (s : Server) : list Summary * option string :=
  fetch_all_conversations (Received (fst (all_conversations s))).

End App.

(** The test by which a caller would recognise the answering failure the
    specification names: [isinstance(e, AnsweringError)], on the class an
    exception was raised with. *)
Definition is_AnsweringError (e : PyExn) : bool :=
  String.eqb (exn_class e) "AnsweringError".

(** * Properties *)

(** ** Lookup by id *)

Section Lookup.

Variable cid : string.

Lemma first_with_id_absent (cs : list Conversation) :
  ~ In cid (map id cs) -> first_with_id cid cs = None.
Proof.
  induction cs as [|c cs IH]; simpl; intros H; [reflexivity|].
  destruct (String.eqb_spec (id c) cid) as [E|E].
  - exfalso. apply H. now left.
  - apply IH. intros Hin. apply H. now right.
Qed.

Lemma append_to_first_absent (d : MessageDict) (cs : list Conversation) :
  ~ In cid (map id cs) -> append_to_first cid d cs = None.
Proof.
  induction cs as [|c cs IH]; simpl; intros H; [reflexivity|].
  destruct (String.eqb_spec (id c) cid) as [E|E].
  - exfalso. apply H. now left.
  - rewrite IH; [reflexivity|]. intros Hin. apply H. now right.
Qed.

(** A registered id splits the registry at its first occurrence. *)
Lemma present_split (cs : list Conversation) :
  In cid (map id cs) ->
  exists pre c post,
    cs = pre ++ c :: post /\ id c = cid /\ ~ In cid (map id pre).
Proof.
  induction cs as [|c cs IH]; simpl; intros H; [contradiction|].
  destruct (String.eqb_spec (id c) cid) as [E|E].
  - exists [], c, cs. simpl. auto.
  - destruct H as [H|H]; [contradiction|].
    destruct (IH H) as (pre & c' & post & -> & Hid & Hpre).
    exists (c :: pre), c', post. simpl. repeat split; auto.
    intros [F|F]; auto.
Qed.

Lemma first_with_id_split (pre post : list Conversation) (c : Conversation) :
  id c = cid -> ~ In cid (map id pre) ->
  first_with_id cid (pre ++ c :: post) = Some c.
Proof.
  intros Hid. induction pre as [|p pre IH]; simpl; intros Hpre.
  - rewrite Hid, String.eqb_refl. reflexivity.
  - destruct (String.eqb_spec (id p) cid) as [E|E].
    + exfalso. apply Hpre. now left.
    + apply IH. intros F. apply Hpre. now right.
Qed.

Lemma append_to_first_split (d : MessageDict) (pre post : list Conversation)
    (c : Conversation) :
  id c = cid -> ~ In cid (map id pre) ->
  append_to_first cid d (pre ++ c :: post)
  = Some (pre ++ with_message c d :: post).
Proof.
  intros Hid. induction pre as [|p pre IH]; simpl; intros Hpre.
  - rewrite Hid, String.eqb_refl. unfold with_message. now rewrite Hid.
  - destruct (String.eqb_spec (id p) cid) as [E|E].
    + exfalso. apply Hpre. now left.
    + rewrite IH; [reflexivity|]. intros F. apply Hpre. now right.
Qed.

End Lookup.

(** [store_message] keeps ids and start times, position by position. *)
Lemma append_to_first_summary (cid : string) (d : MessageDict)
    (cs cs' : list Conversation) :
  append_to_first cid d cs = Some cs' -> map summary cs' = map summary cs.
Proof.
  revert cs'. induction cs as [|c cs IH]; simpl; intros cs' H; [discriminate|].
  destruct (String.eqb (id c) cid).
  - injection H as <-. reflexivity.
  - destruct (append_to_first cid d cs) as [r|]; [|discriminate].
    injection H as <-. simpl. now rewrite (IH r eq_refl).
Qed.

Lemma store_message_present (cid : string) (m : Message) (s : Server)
    (pre post : list Conversation) (c : Conversation) :
  conversations s = pre ++ c :: post -> id c = cid ->
  ~ In cid (map id pre) ->
  store_message cid m s
  = (Return tt,
     set_conversations (pre ++ with_message c (model_dump m) :: post) s).
Proof.
  intros Hs Hid Hpre. unfold store_message.
  rewrite Hs, (append_to_first_split cid _ pre post c Hid Hpre). reflexivity.
Qed.

(** ** Conversation store: unknown ids *)

Lemma store_message_absent (s : Server) (cid : string) (message : Message) :
  ~ In cid (map id (conversations s)) ->
  store_message cid message s = (Raise (ValueError (not_found_msg cid)), s).
Proof.
  intros Habsent. unfold store_message.
  now rewrite (append_to_first_absent cid _ _ Habsent).
Qed.

Lemma get_conversation_absent (s : Server) (cid : string) :
  ~ In cid (map id (conversations s)) ->
  get_conversation cid s = Raise (ValueError (not_found_msg cid)).
Proof.
  intros Habsent. unfold get_conversation.
  now rewrite (first_with_id_absent cid _ Habsent).
Qed.

(** [serve] stops at its first statement when the id is not registered. *)
Lemma serve_absent (engine : Engine) (s : Server) (cid user_message : string) :
  ~ In cid (map id (conversations s)) ->
  serve engine user_message cid s
  = (Raise (ValueError (not_found_msg cid)), s).
Proof.
  intros Habsent. unfold serve, bind.
  now rewrite (store_message_absent s cid _ Habsent).
Qed.

(** C3. On an id that no registered conversation carries, [store_message]
    and [get_conversation] both raise the not-found error (the
    [ValueError] "Conversation ID <id> not found."): neither returns
    normally, and [store_message] leaves the server as it was. *)
Theorem unknown_id_raises_not_found (s : Server) (cid : string)
    (message : Message) (Habsent : ~ In cid (map id (conversations s))) :
  store_message cid message s = (Raise (ValueError (not_found_msg cid)), s)
  /\ get_conversation cid s = Raise (ValueError (not_found_msg cid)).
Proof.
  split.
  - now apply store_message_absent.
  - now apply get_conversation_absent.
Qed.

Lemma unknown_id_raises_not_found_witness :
  let s := snd (start_new_conversation "c-1" 10 init) in
  store_message "c-2" (mkMessage "user" "hi") s
  = (Raise (ValueError "Conversation ID c-2 not found."), s)
  /\ get_conversation "c-2" s
     = Raise (ValueError "Conversation ID c-2 not found.").
Proof.
  apply (unknown_id_raises_not_found
           (snd (start_new_conversation "c-1" 10 init)) "c-2"
           (mkMessage "user" "hi")).
  simpl. intros [H|[]]. discriminate H.
Defined.

(** ** Answering pipeline *)

(** C1. [serve] on an id that is not registered raises the not-found error
    and returns the server exactly as it received it: the registry is the
    same (no conversation was created) and the engine trace is the same
    (neither [as_query_engine] nor [query] was called). *)
Theorem serve_unknown_id_aborts (engine : Engine) (s : Server)
    (cid user_message : string)
    (Habsent : ~ In cid (map id (conversations s))) :
  serve engine user_message cid s
  = (Raise (ValueError (not_found_msg cid)), s).
Proof. now apply serve_absent. Qed.

Lemma serve_unknown_id_aborts_witness :
  serve (mkEngine (fun _ => None) (fun _ q => Return q)) "hi" "unknown" init
  = (Raise (ValueError "Conversation ID unknown not found."), init).
Proof.
  apply (serve_unknown_id_aborts
           (mkEngine (fun _ => None) (fun _ q => Return q)) init "unknown" "hi").
  simpl. intros [].
Defined.

(** C2, amended. When the id is registered and the retrieval and
    generation step raises [e], [serve] raises that same [e], passed on as
    it is (nothing is converted to an answering error of its own); the
    first conversation with the id has gained the user message, and only
    it, at the end of its log; every other conversation is as before; and
    [get_conversation] now returns the old log followed by the user
    message, with no assistant message after it. *)
Theorem serve_engine_failure_keeps_user_turn (engine : Engine) (s : Server)
    (cid user_message : string) (e : PyExn)
    (Hpresent : In cid (map id (conversations s)))
    (Hfails : engine_raises engine (engine_trace s) user_message e) :
  let user_turn := model_dump (mkMessage "user" user_message) in
  exists (s' : Server) (pre post : list Conversation) (c : Conversation),
    serve engine user_message cid s = (Raise e, s')
    /\ conversations s = pre ++ c :: post
    /\ id c = cid /\ ~ In cid (map id pre)
    /\ conversations s' = pre ++ with_message c user_turn :: post
    /\ get_conversation cid s = Return (messages c)
    /\ get_conversation cid s' = Return (messages c ++ [user_turn])
    /\ last (messages c ++ [user_turn]) [] = user_turn.
Proof.
  intros user_turn.
  destruct (present_split cid _ Hpresent) as (pre & c & post & Hs & Hid & Hpre).
  pose proof (store_message_present cid (mkMessage "user" user_message) s
                pre post c Hs Hid Hpre) as Hstore.
  fold user_turn in Hstore.
  assert (Hget : forall t, conversations t = pre ++ c :: post ->
                           get_conversation cid t = Return (messages c)).
  { intros t Ht. unfold get_conversation.
    now rewrite Ht, (first_with_id_split cid pre post c Hid Hpre). }
  assert (Hget' : forall t,
             conversations t = pre ++ with_message c user_turn :: post ->
             get_conversation cid t = Return (messages c ++ [user_turn])).
  { intros t Ht. unfold get_conversation.
    now rewrite Ht, (first_with_id_split cid pre post (with_message c user_turn)
                       Hid Hpre). }
  destruct Hfails as [Hq | [Hq Hr]].
  - exists (log_event AsQueryEngine
              (set_conversations (pre ++ with_message c user_turn :: post) s)),
      pre, post, c.
    repeat split; auto.
    + unfold serve, bind. rewrite Hstore.
      unfold index_as_query_engine. simpl. rewrite Hq. reflexivity.
    + apply last_last.
  - exists (log_event (Query user_message)
              (log_event AsQueryEngine
                 (set_conversations (pre ++ with_message c user_turn :: post) s))),
      pre, post, c.
    repeat split; auto.
    + unfold serve, bind. rewrite Hstore.
      unfold index_as_query_engine, query_engine_query. simpl.
      rewrite Hq. simpl. rewrite Hr. reflexivity.
    + apply last_last.
Qed.

Lemma serve_engine_failure_keeps_user_turn_witness :
  let engine :=
    mkEngine (fun _ => None) (fun _ _ => Raise (mkExn "APIError" "no reply")) in
  let s := snd (start_new_conversation "c-1" 10 init) in
  let user_turn := model_dump (mkMessage "user" "hi") in
  exists (s' : Server) (pre post : list Conversation) (c : Conversation),
    serve engine "hi" "c-1" s = (Raise (mkExn "APIError" "no reply"), s')
    /\ conversations s = pre ++ c :: post
    /\ id c = "c-1" /\ ~ In "c-1" (map id pre)
    /\ conversations s' = pre ++ with_message c user_turn :: post
    /\ get_conversation "c-1" s = Return (messages c)
    /\ get_conversation "c-1" s' = Return (messages c ++ [user_turn])
    /\ last (messages c ++ [user_turn]) [] = user_turn.
Proof.
  apply (serve_engine_failure_keeps_user_turn
           (mkEngine (fun _ => None)
              (fun _ _ => Raise (mkExn "APIError" "no reply")))
           (snd (start_new_conversation "c-1" 10 init)) "c-1" "hi"
           (mkExn "APIError" "no reply")).
  - simpl. left. reflexivity.
  - right. split; reflexivity.
Defined.

(** C2 as the specification states it does not hold: when the engine
    raises, [serve] fails with the engine's own exception, which is no
    [AnsweringError]; and when the engine happens to raise the not-found
    [ValueError], the failure is the very one an unknown id gives. *)
Lemma answering_error_counterexample :
  let e := mkExn "APIError" "no reply" in
  let engine := mkEngine (fun _ => None) (fun _ _ => Raise e) in
  let echo := mkEngine (fun _ => None)
                (fun _ _ => Raise (ValueError (not_found_msg "c-9"))) in
  let s := snd (start_new_conversation "c-1" 10 init) in
  In "c-1" (map id (conversations s))
  /\ engine_raises engine (engine_trace s) "hi" e
  /\ fst (serve engine "hi" "c-1" s) = Raise e
  /\ is_AnsweringError e = false
  /\ fst (serve echo "hi" "c-1" s) = fst (serve echo "hi" "c-9" s).
Proof.
  simpl. split; [left; reflexivity|].
  split; [right; split; reflexivity|].
  repeat split.
Qed.

(** When nothing raises, [serve] appends the user turn and then the
    assistant turn and returns the generated text. *)
Lemma serve_success (engine : Engine) (s : Server) (cid user_message : string)
    (response : string) (pre post : list Conversation) (c : Conversation) :
  conversations s = pre ++ c :: post -> id c = cid ->
  ~ In cid (map id pre) ->
  as_query_engine engine (engine_trace s) = None ->
  query engine (engine_trace s ++ [AsQueryEngine]) user_message
  = Return response ->
  exists s',
    serve engine user_message cid s = (Return response, s')
    /\ conversations s'
       = pre ++ with_message
                  (with_message c (model_dump (mkMessage "user" user_message)))
                  (model_dump (mkMessage "assistant" response)) :: post
    /\ engine_trace s'
       = engine_trace s ++ [AsQueryEngine; Query user_message].
Proof.
  intros Hs Hid Hpre Hq Hr.
  eexists. split; [|split].
  - unfold serve, bind.
    rewrite (store_message_present cid _ s pre post c Hs Hid Hpre).
    unfold index_as_query_engine, query_engine_query. simpl.
    rewrite Hq. simpl. rewrite Hr.
    erewrite store_message_present; [reflexivity | reflexivity | exact Hid | exact Hpre].
  - reflexivity.
  - simpl. now rewrite <- app_assoc.
Qed.

(** ** Conversation store: append and read back *)

Lemma store_all_present (cid : string) (ms : list Message) :
  forall (s : Server) (pre post : list Conversation) (c : Conversation),
    conversations s = pre ++ c :: post -> id c = cid ->
    ~ In cid (map id pre) ->
    store_all cid ms s
    = (Return tt,
       set_conversations
         (pre ++ mkConversation (id c) (start_time c)
                   (messages c ++ map model_dump ms) :: post) s).
Proof.
  induction ms as [|m ms IH]; intros s pre post c Hs Hid Hpre.
  - simpl. unfold ret, set_conversations. rewrite app_nil_r.
    destruct c as [i t l]. simpl. rewrite <- Hs. destruct s; reflexivity.
  - simpl. unfold bind.
    rewrite (store_message_present cid m s pre post c Hs Hid Hpre).
    rewrite (IH (set_conversations (pre ++ with_message c (model_dump m) :: post) s)
               pre post (with_message c (model_dump m)) eq_refl Hid Hpre).
    unfold set_conversations, with_message. simpl.
    now rewrite <- app_assoc.
Qed.

(** C6. For a registered id, storing the messages of a list one after the
    other succeeds, and [get_conversation] then returns the log the
    conversation had before followed by exactly those messages (as their
    dumps), in the order they were stored. *)
Theorem store_then_get_in_append_order (s : Server) (cid : string)
    (ms : list Message) (Hpresent : In cid (map id (conversations s))) :
  exists (log : list MessageDict) (s' : Server),
    get_conversation cid s = Return log
    /\ store_all cid ms s = (Return tt, s')
    /\ get_conversation cid s' = Return (log ++ map model_dump ms).
Proof.
  destruct (present_split cid _ Hpresent) as (pre & c & post & Hs & Hid & Hpre).
  exists (messages c). eexists. split; [|split].
  - unfold get_conversation.
    now rewrite Hs, (first_with_id_split cid pre post c Hid Hpre).
  - apply (store_all_present cid ms s pre post c Hs Hid Hpre).
  - unfold get_conversation. simpl.
    now rewrite (first_with_id_split cid pre post
                   (mkConversation (id c) (start_time c)
                      (messages c ++ map model_dump ms)) Hid Hpre).
Qed.

Lemma store_then_get_in_append_order_witness :
  let s := snd (start_new_conversation "c-2" 20
                  (snd (start_new_conversation "c-1" 10 init))) in
  let ms := [mkMessage "user" "q1"; mkMessage "assistant" "a1";
             mkMessage "user" "q2"] in
  exists (log : list MessageDict) (s' : Server),
    get_conversation "c-1" s = Return log
    /\ store_all "c-1" ms s = (Return tt, s')
    /\ get_conversation "c-1" s' = Return (log ++ map model_dump ms).
Proof.
  apply (store_then_get_in_append_order
           (snd (start_new_conversation "c-2" 20
                   (snd (start_new_conversation "c-1" 10 init))))
           "c-1"
           [mkMessage "user" "q1"; mkMessage "assistant" "a1";
            mkMessage "user" "q2"]).
  simpl. right. left. reflexivity.
Defined.

(** ** [list.sort(key=..., reverse=True)] *)

Section SortReverse.

Context {A : Type} (key : A -> Z).

Lemma insert_desc_perm (x : A) (l : list A) :
  Permutation (insert_desc key x l) (x :: l).
Proof.
  induction l as [|y l IH]; simpl; [reflexivity|].
  destruct (key x <? key y)%Z; [|reflexivity].
  rewrite IH. apply perm_swap.
Qed.

Lemma sort_reverse_perm (l : list A) : Permutation (sort_reverse key l) l.
Proof.
  induction l as [|x l IH]; simpl; [reflexivity|].
  rewrite insert_desc_perm. now constructor.
Qed.

Lemma insert_desc_sorted (x : A) (l : list A) :
  StronglySorted (key_ge key) l -> StronglySorted (key_ge key) (insert_desc key x l).
Proof.
  induction l as [|y l IH]; simpl; intros Hl.
  - repeat constructor.
  - inversion Hl as [|y' l' Hsorted Hall]; subst.
    destruct (Z.ltb_spec (key x) (key y)) as [Hlt|Hge].
    + constructor; [now apply IH|].
      rewrite Forall_forall. intros z Hz.
      apply (Permutation_in _ (insert_desc_perm x l)) in Hz.
      destruct Hz as [<-|Hz].
      * unfold key_ge. lia.
      * rewrite Forall_forall in Hall. now apply Hall.
    + constructor; [exact Hl|].
      constructor; [exact Hge|].
      rewrite Forall_forall in *. intros z Hz.
      specialize (Hall z Hz). unfold key_ge in *. lia.
Qed.

Lemma sort_reverse_sorted (l : list A) :
  StronglySorted (key_ge key) (sort_reverse key l).
Proof.
  induction l as [|x l IH]; simpl; [constructor|].
  now apply insert_desc_sorted.
Qed.

(** A list already in descending order is left as it is. *)
Lemma sort_reverse_fixed (l : list A) :
  StronglySorted (key_ge key) l -> sort_reverse key l = l.
Proof.
  induction 1 as [|x l Hl IH Hall]; simpl; [reflexivity|].
  rewrite IH. destruct l as [|y l]; simpl; [reflexivity|].
  inversion Hall as [|? ? Hxy _]; subst. unfold key_ge in Hxy.
  destruct (Z.ltb_spec (key x) (key y)); [lia|reflexivity].
Qed.

End SortReverse.

Lemma StronglySorted_map {A B : Type} (f : A -> B) (R : B -> B -> Prop)
    (l : list A) :
  StronglySorted (fun a b => R (f a) (f b)) l -> StronglySorted R (map f l).
Proof.
  induction 1 as [|x l Hl IH Hall]; simpl; constructor; auto.
  rewrite Forall_forall in *. intros y Hy.
  apply in_map_iff in Hy. destruct Hy as (z & <- & Hz). now apply Hall.
Qed.

(** ** Conversation store: creation and listing *)

Lemma start_new_conversation_spec (uuid4 : string) (now : Z) (s : Server) :
  let s' := snd (start_new_conversation uuid4 now s) in
  fst (start_new_conversation uuid4 now s) = uuid4
  /\ Permutation (conversations s')
       (conversations s ++ [fresh_conversation (uuid4, now)])
  /\ StronglySorted (key_ge start_time) (conversations s')
  /\ engine_trace s' = engine_trace s.
Proof.
  simpl. repeat split.
  - apply sort_reverse_perm.
  - apply sort_reverse_sorted.
Qed.

Lemma store_message_summaries (cid : string) (m : Message) (s : Server) :
  get_all_conversations (snd (store_message cid m s))
  = get_all_conversations s.
Proof.
  unfold store_message, get_all_conversations.
  destruct (append_to_first cid (model_dump m) (conversations s)) as [cs|] eqn:E;
    simpl; [|reflexivity].
  exact (append_to_first_summary cid _ _ _ E).
Qed.

Lemma summaries_sorted (cs : list Conversation) :
  StronglySorted (key_ge start_time) cs ->
  StronglySorted newer_or_same (map summary cs).
Proof. intros H. apply StronglySorted_map. exact H. Qed.

(** Any call sequence keeps the listing in descending start-time order and
    adds to it exactly the summaries of the conversations started. *)
Lemma run_ops_listing (ops : list Op) :
  forall s : Server,
    StronglySorted newer_or_same (get_all_conversations s) ->
    StronglySorted newer_or_same (get_all_conversations (run_ops ops s))
    /\ Permutation (get_all_conversations (run_ops ops s))
         (get_all_conversations s ++ started ops).
Proof.
  induction ops as [|op ops IH]; intros s Hs.
  - simpl. rewrite app_nil_r. split; [exact Hs|reflexivity].
  - change (run_ops (op :: ops) s) with (run_ops ops (run_op op s)).
    destruct op as [uuid4 now | cid m].
    + destruct (start_new_conversation_spec uuid4 now s) as (_ & Hp & Hsort & _).
      destruct (IH (run_op (StartNewConversation uuid4 now) s)) as [IH1 IH2].
      { apply summaries_sorted. exact Hsort. }
      split; [exact IH1|].
      rewrite IH2. simpl started.
      change (mkSummary uuid4 now :: started ops)
        with ([mkSummary uuid4 now] ++ started ops).
      rewrite app_assoc. apply Permutation_app_tail.
      unfold get_all_conversations. simpl run_op.
      rewrite (Permutation_map summary Hp), map_app. reflexivity.
    + assert (E : get_all_conversations (run_op (StoreMessage cid m) s)
                  = get_all_conversations s)
        by apply store_message_summaries.
      destruct (IH (run_op (StoreMessage cid m) s)) as [IH1 IH2].
      { rewrite E. exact Hs. }
      split; [exact IH1|]. rewrite IH2, E. reflexivity.
Qed.

(** C5. After any sequence of [start_new_conversation] and [store_message]
    calls on a new server, [get_all_conversations] returns one summary
    (id and start time) per registered conversation, position by position;
    these are exactly the summaries of the conversations started; and the
    list is in descending order of start time. *)
Theorem listing_sorted_newest_first (ops : list Op) :
  let s := run_ops ops init in
  get_all_conversations s = map summary (conversations s)
  /\ List.length (get_all_conversations s) = List.length (conversations s)
  /\ Permutation (get_all_conversations s) (started ops)
  /\ StronglySorted newer_or_same (get_all_conversations s).
Proof.
  intros s. destruct (run_ops_listing ops init) as [Hsorted Hperm].
  { constructor. }
  repeat split.
  - unfold get_all_conversations. apply length_map.
  - exact Hperm.
  - exact Hsorted.
Qed.

(** The ids of the registry stay pairwise distinct when each new id is
    unused. *)
Lemma start_new_conversation_unique_ids (uuid4 : string) (now : Z) (s : Server) :
  NoDup (map id (conversations s)) ->
  ~ In uuid4 (map id (conversations s)) ->
  NoDup (map id (conversations (snd (start_new_conversation uuid4 now s)))).
Proof.
  intros Hnd Hfresh.
  destruct (start_new_conversation_spec uuid4 now s) as (_ & Hp & _).
  apply (Permutation_NoDup (l := map id (conversations s ++ [fresh_conversation (uuid4, now)]))).
  - symmetry. apply Permutation_map. exact Hp.
  - rewrite map_app. simpl.
    apply (Permutation_NoDup (l := uuid4 :: map id (conversations s))).
    + apply Permutation_cons_append.
    + now constructor.
Qed.





(** ** Transport *)

Lemma try_except_500_raise {A : Type} (m : M A) (to_body : A -> Body)
    (s s' : Server) (e : PyExn) :
  m s = (Raise e, s') ->
  try_except_500 m to_body s = (HTTPException 500 (str e), s').
Proof. intros H. unfold try_except_500. now rewrite H. Qed.

Lemma try_except_500_return {A : Type} (m : M A) (to_body : A -> Body)
    (s s' : Server) (a : A) :
  m s = (Return a, s') ->
  try_except_500 m to_body s = (Respond (to_body a), s').
Proof. intros H. unfold try_except_500. now rewrite H. Qed.

Lemma join_iter_str (s : string) : join "" (iter_str s) = s.
Proof.
  induction s as [|c s IH]; simpl; [reflexivity|].
  destruct (iter_str s) as [|p ps] eqn:E.
  - destruct s; [reflexivity|discriminate].
  - simpl in *. now rewrite IH.
Qed.

(** C4 as the specification states it does not hold: a fetch of the
    history, or a chat message, for an id that is not registered is
    answered with status 500, which is a server error and not a client
    error. *)
Lemma not_found_is_client_error_counterexample :
  let engine := mkEngine (fun _ => None) (fun _ q => Return q) in
  ~ In "stale" (map id (conversations init))
  /\ fst (get_conversation_history "stale" init)
     = HTTPException 500 "Conversation ID stale not found."
  /\ is_client_error (fst (get_conversation_history "stale" init)) = false
  /\ fst (query_pipeline engine (mkRequestBody "stale" "hi" []) init)
     = HTTPException 500 "Conversation ID stale not found."
  /\ is_client_error
       (fst (query_pipeline engine (mkRequestBody "stale" "hi" []) init))
     = false.
Proof.
  simpl. repeat split. intros [].
Qed.

(** C4, amended. Every exception raised under an endpoint becomes an
    [HTTPException] with status 500 and the exception's message as detail,
    the not-found error included: for an id that is not registered, both
    the history endpoint and the chat endpoint answer with status 500 and
    the detail "Conversation ID <id> not found.", which is a server error
    and not a client error, and they leave the server unchanged. *)
Theorem every_error_maps_to_500 (engine : Engine) (s : Server)
    (body : RequestBody) (cid : string) :
  (forall (e : PyExn) (s' : Server),
      serve engine (body_user_message body) (body_conversation_id body) s
      = (Raise e, s') ->
      query_pipeline engine body s = (HTTPException 500 (str e), s'))
  /\ (forall e : PyExn,
        get_conversation cid s = Raise e ->
        get_conversation_history cid s = (HTTPException 500 (str e), s))
  /\ (~ In cid (map id (conversations s)) ->
      body_conversation_id body = cid ->
      let r := HTTPException 500 (not_found_msg cid) in
      get_conversation_history cid s = (r, s)
      /\ query_pipeline engine body s = (r, s)
      /\ is_server_error r = true /\ is_client_error r = false).
Proof.
  split; [|split].
  - intros e s' H. unfold query_pipeline.
    now apply try_except_500_raise.
  - intros e H. unfold get_conversation_history.
    apply try_except_500_raise. now rewrite H.
  - intros Habsent Hcid r.
    repeat split.
    + unfold get_conversation_history.
      apply (try_except_500_raise _ _ s s (ValueError (not_found_msg cid))).
      now rewrite (get_conversation_absent s cid Habsent).
    + unfold query_pipeline. rewrite Hcid.
      apply (try_except_500_raise _ _ s s (ValueError (not_found_msg cid))).
      now apply serve_absent.
Qed.

Lemma every_error_maps_to_500_witness :
  let engine := mkEngine (fun _ => None) (fun _ q => Return q) in
  let s := snd (start_new_conversation "c-1" 10 init) in
  let r := HTTPException 500 "Conversation ID c-9 not found." in
  get_conversation_history "c-9" s = (r, s)
  /\ query_pipeline engine (mkRequestBody "c-9" "hi" []) s = (r, s)
  /\ is_server_error r = true /\ is_client_error r = false.
Proof.
  destruct (every_error_maps_to_500
              (mkEngine (fun _ => None) (fun _ q => Return q))
              (snd (start_new_conversation "c-1" 10 init))
              (mkRequestBody "c-9" "hi" []) "c-9") as (_ & _ & H).
  apply H.
  - simpl. intros [E|[]]. discriminate E.
  - reflexivity.
Defined.

(** The handler reads two fields of the validated body and no other. *)
Lemma chat_ignores_messages_field (engine : Engine) (b1 b2 : RequestBody)
    (s : Server) :
  body_conversation_id b1 = body_conversation_id b2 ->
  body_user_message b1 = body_user_message b2 ->
  query_pipeline engine b1 s = query_pipeline engine b2 s.
Proof.
  intros Hid Hmsg. unfold query_pipeline. rewrite Hid, Hmsg. reflexivity.
Qed.

Lemma validate_chat_json (cid um : string) (msgs : Json) :
  validate_RequestBody (chat_json cid um msgs)
  = match validate_messages msgs with
    | Some ms => Some (mkRequestBody cid um ms)
    | None => None
    end.
Proof. reflexivity. Qed.

(** C10 as stated does not hold: the [messages] field is validated before
    the handler runs. Of two requests with the same conversation id and
    user message, the one with an empty [messages] list is answered 200 and
    stores two turns, the one whose [messages] holds an item without
    [content] is answered 422 and stores nothing. *)
Lemma messages_field_counterexample :
  let engine := mkEngine (fun _ => None) (fun _ q => Return q) in
  let s := snd (start_new_conversation "c-1" 10 init) in
  let good := chat_json "c-1" "hi" (JArray []) in
  let bad := chat_json "c-1" "hi"
               (JArray [JObject [("role", JString "user")]]) in
  answer_status (fst (post_chat engine good s)) = 200%Z
  /\ answer_status (fst (post_chat engine bad s)) = 422%Z
  /\ get_conversation "c-1" (snd (post_chat engine good s))
     = Return [model_dump (mkMessage "user" "hi");
               model_dump (mkMessage "assistant" "hi")]
  /\ get_conversation "c-1" (snd (post_chat engine bad s)) = Return []
  /\ post_chat engine good s <> post_chat engine bad s.
Proof.
  simpl. repeat split. discriminate.
Qed.

(** C10, amended. Two chat requests with the same conversation id and user
    message whose [messages] fields both pass validation get the same
    answer and leave the same server, whatever those lists hold: the
    handler never reads them. A request whose [messages] field does not
    pass validation is answered 422 and leaves the server as it was. *)
Theorem chat_reads_messages_only_to_validate (engine : Engine)
    (cid um : string) (msgs1 msgs2 : Json) (s : Server) :
  (forall ms1 ms2 : list Message,
      validate_messages msgs1 = Some ms1 ->
      validate_messages msgs2 = Some ms2 ->
      post_chat engine (chat_json cid um msgs1) s
      = post_chat engine (chat_json cid um msgs2) s)
  /\ (validate_messages msgs1 = None ->
      post_chat engine (chat_json cid um msgs1) s = (Unprocessable, s)).
Proof.
  unfold post_chat. rewrite !validate_chat_json. split.
  - intros ms1 ms2 H1 H2. rewrite H1, H2.
    now rewrite (chat_ignores_messages_field engine
                   (mkRequestBody cid um ms1) (mkRequestBody cid um ms2) s
                   eq_refl eq_refl).
  - intros H. now rewrite H.
Qed.

Lemma chat_reads_messages_only_to_validate_witness :
  let engine := mkEngine (fun _ => None) (fun _ q => Return q) in
  let s := snd (start_new_conversation "c-1" 10 init) in
  let history :=
    JArray [JObject [("role", JString "assistant");
                     ("content", JString "welcome")];
            JObject [("content", JString "hi"); ("role", JString "user");
                     ("seen", JBool true)]] in
  post_chat engine (chat_json "c-1" "hi" (JArray [])) s
  = post_chat engine (chat_json "c-1" "hi" history) s
  /\ post_chat engine (chat_json "c-1" "hi" JNull) s = (Unprocessable, s).
Proof.
  intros engine s history. split.
  - destruct (chat_reads_messages_only_to_validate engine "c-1" "hi"
                (JArray []) history s) as [H _].
    apply (H [] [mkMessage "assistant" "welcome"; mkMessage "user" "hi"]);
      reflexivity.
  - destruct (chat_reads_messages_only_to_validate engine "c-1" "hi"
                JNull JNull s) as [_ H].
    apply H. reflexivity.
Defined.

(** ** Document loader *)

Section Strings.

Local Open Scope string_scope.

Lemma string_app_assoc (a b c : string) : (a ++ b) ++ c = a ++ (b ++ c).
Proof. induction a as [|x a IH]; simpl; [reflexivity|now rewrite IH]. Qed.

Lemma string_app_nil_r (a : string) : a ++ "" = a.
Proof. induction a as [|x a IH]; simpl; [reflexivity|now rewrite IH]. Qed.

Lemma concat_empty_cons (x : string) (l : list string) :
  String.concat "" (x :: l) = x ++ String.concat "" l.
Proof.
  destruct l as [|y l]; simpl; [now rewrite string_app_nil_r|reflexivity].
Qed.

Lemma concat_empty_app (l1 l2 : list string) :
  String.concat "" (l1 ++ l2)%list
  = String.concat "" l1 ++ String.concat "" l2.
Proof.
  induction l1 as [|x l1 IH]; [reflexivity|].
  change ((x :: l1) ++ l2)%list with (x :: (l1 ++ l2))%list.
  now rewrite !concat_empty_cons, IH, string_app_assoc.
Qed.

Lemma prefix_app (needle rest : string) :
  String.prefix needle (needle ++ rest) = true.
Proof.
  induction needle as [|x needle IH]; simpl.
  - now destruct rest.
  - destruct (ascii_dec x x) as [_|F]; [exact IH|now elim F].
Qed.

Lemma contains_prefix (needle haystack : string) :
  String.prefix needle haystack = true -> contains needle haystack = true.
Proof. intros H. destruct haystack; simpl in *; now rewrite H. Qed.

Lemma contains_middle (needle before after : string) :
  contains needle (before ++ needle ++ after) = true.
Proof.
  induction before as [|x before IH].
  - change ("" ++ needle ++ after) with (needle ++ after).
    apply contains_prefix, prefix_app.
  - simpl. rewrite IH. apply orb_true_r.
Qed.

End Strings.

Lemma recipe_text_template_by_rules (row : Row) :
  recipe_text_template row = render_by_rules row.
Proof.
  unfold recipe_text_template, render_by_rules, optional_rules, clause_of.
  cbn [flat_map fst snd app].
  change ("Η συνταγή για " ++ fmt (name row) ++ " είναι ένα "
            ++ fmt (Category row) ++ " που "
            ++ "χρειάζεται τα εξής υλικά: " ++ fmt (Ingredients row)
            ++ ". ")%string
    with (head_clause row).
  generalize (head_clause row) as h. intros h.
  destruct (Preparation_Time row), (Total_Time row), (Number_of_Servings row),
    (Keywords row), (Instructions row);
    cbn [isna negb app];
    rewrite ?concat_empty_app, ?concat_empty_cons;
    cbn [String.concat];
    unfold preparation_time_clause, total_time_clause, servings_clause,
      keywords_clause, instructions_clause;
    rewrite ?string_app_nil_r, ?string_app_assoc;
    reflexivity.
Qed.

(** C8. The loader makes one document per record, whose text is the head
    clause followed by the clauses of the optional fields in template
    order, each present exactly when its field holds a value. For a record
    without "Preparation Time" and with "Keywords", the text is the head,
    then the clauses for total time, servings, keywords and instructions
    (the first two and the last when present): no preparation-time clause
    was rendered, and the keywords clause occurs in the text. *)
Theorem loader_renders_present_fields (recipes : list Row) (row : Row) :
  load_documents recipes = map (fun r => mkDocument (render_by_rules r)) recipes
  /\ List.length (load_documents recipes) = List.length recipes
  /\ recipe_text_template row = render_by_rules row
  /\ (forall k : string,
        Preparation_Time row = NaN -> Keywords row = Value k ->
        recipe_text_template row
        = (head_clause row
             ++ String.concat ""
                  (clause_of row (Total_Time, total_time_clause)
                     ++ clause_of row (Number_of_Servings, servings_clause)
                     ++ [keywords_clause k]
                     ++ clause_of row (Instructions, instructions_clause)))%string
        /\ contains (keywords_clause k) (recipe_text_template row) = true).
Proof.
  assert (Hk : forall k : string,
             Preparation_Time row = NaN -> Keywords row = Value k ->
             recipe_text_template row
             = (head_clause row
                  ++ String.concat ""
                       (clause_of row (Total_Time, total_time_clause)
                          ++ clause_of row (Number_of_Servings, servings_clause)
                          ++ [keywords_clause k]
                          ++ clause_of row (Instructions, instructions_clause)))%string).
  { intros k Hp Hkw. rewrite recipe_text_template_by_rules.
    unfold render_by_rules, optional_rules. cbn [flat_map].
    replace (clause_of row (Preparation_Time, preparation_time_clause))
      with (@nil string) by (unfold clause_of; cbn [fst snd]; now rewrite Hp).
    replace (clause_of row (Keywords, keywords_clause))
      with [keywords_clause k] by (unfold clause_of; cbn [fst snd]; now rewrite Hkw).
    now rewrite app_nil_r. }
  split; [|split; [|split; [|intros k Hp Hkw; split]]].
  - unfold load_documents. rewrite map_map. apply map_ext.
    intros r. now rewrite recipe_text_template_by_rules.
  - unfold load_documents. now rewrite !length_map.
  - apply recipe_text_template_by_rules.
  - now apply Hk.
  - rewrite (Hk k Hp Hkw).
    rewrite app_assoc, concat_empty_app.
    change ([keywords_clause k]
              ++ clause_of row (Instructions, instructions_clause))
      with (keywords_clause k
              :: clause_of row (Instructions, instructions_clause)).
    rewrite concat_empty_cons, <- string_app_assoc.
    apply contains_middle.
Qed.

Lemma loader_renders_present_fields_witness :
  recipe_text_template moussaka
  = ("Η συνταγή για Μουσακάς είναι ένα Κυρίως πιάτο που χρειάζεται τα εξής υλικά: μελιτζάνες, κιμάς, πατάτες. "
       ++ "και συνολικά παίρνει 90 λεπτά. "
       ++ "Χαρακτηριστικές λέξεις που περιγράφουν αυτή τη συνταγή είναι: φούρνος, παραδοσιακό.")%string
  /\ contains (keywords_clause "φούρνος, παραδοσιακό")
       (recipe_text_template moussaka) = true
  /\ contains "Έχει χρόνο προετοιμασίας" (recipe_text_template moussaka)
     = false.
Proof.
  destruct (loader_renders_present_fields [moussaka] moussaka)
    as (_ & _ & _ & H).
  destruct (H "φούρνος, παραδοσιακό" eq_refl eq_refl) as [_ Hkw].
  split; [reflexivity|]. split; [exact Hkw|]. vm_compute. reflexivity.
Defined.

(** ** Chunker *)

Lemma batch_concat {A : Type} (it : list A) (n : nat) :
  0 < n -> List.concat (batch it n) = it.
Proof.
  funelim (batch it n); intros Hn.
  - destruct n as [|n]; [lia|].
    destruct it as [|x it]; [reflexivity|discriminate].
  - cbn [List.concat].
    match goal with IH : _ -> List.concat _ = _ |- _ => rewrite (IH Hn) end.
    match goal with E : firstn _ _ = _ |- _ => rewrite <- E end.
    apply firstn_skipn.
Qed.

Lemma batch_sizes {A : Type} (it : list A) (n : nat) :
  Forall (fun b => 0 < List.length b <= n) (batch it n).
Proof.
  funelim (batch it n).
  - constructor.
  - constructor; [|assumption].
    split; [simpl; lia|].
    match goal with E : firstn _ _ = _ |- _ => rewrite <- E end.
    apply firstn_le_length.
Qed.

Lemma extend_over_split_each {Node : Type} (splitter : Splitter Node)
    (batches : list (list Document)) :
  forall nodes : list Node,
    extend_over splitter batches nodes
    = result_map (fun outs => nodes ++ List.concat outs)
        (split_each splitter batches).
Proof.
  induction batches as [|b batches IH]; intros nodes; simpl.
  - now rewrite app_nil_r.
  - destruct (splitter b) as [batch_nodes|e]; [|reflexivity].
    rewrite IH. destruct (split_each splitter batches) as [outs|e]; simpl;
      [now rewrite app_assoc|reflexivity].
Qed.

(** C9. For a batch size above zero, the chunker cuts the documents into
    consecutive non-empty batches of at most that size which, put end to
    end, are the documents in their order; once the splitter is built, it
    applies it to each batch in order and returns the per-batch node lists
    put end to end (or the first exception a splitter call raises); when
    building the splitter raises, that exception is the outcome. *)
Theorem chunk_documents_concatenates_batches {Node : Type}
    (splitter : Splitter Node) (documents : list Document) (batch_size : nat)
    (Hpos : 0 < batch_size) :
  let batches := batch documents batch_size in
  List.concat batches = documents
  /\ Forall (fun b => 0 < List.length b <= batch_size) batches
  /\ chunk_documents (Return splitter) documents batch_size
     = result_map (@List.concat Node) (split_each splitter batches)
  /\ (forall e : PyExn,
        chunk_documents (@Raise (Splitter Node) e) documents batch_size
        = Raise e).
Proof.
  intros batches. split; [|split; [|split]].
  - now apply batch_concat.
  - apply batch_sizes.
  - unfold chunk_documents. rewrite extend_over_split_each. reflexivity.
  - reflexivity.
Qed.

Lemma chunk_documents_concatenates_batches_witness :
  let docs := map mkDocument ["a"; "b"; "c"; "d"; "e"] in
  let splitter : Splitter string := fun b => Return (map text b) in
  batch docs 2
  = [[mkDocument "a"; mkDocument "b"]; [mkDocument "c"; mkDocument "d"];
     [mkDocument "e"]]
  /\ chunk_documents (Return splitter) docs 2 = Return ["a"; "b"; "c"; "d"; "e"].
Proof.
  destruct (chunk_documents_concatenates_batches
              (fun b => Return (map text b) : Result (list string))
              (map mkDocument ["a"; "b"; "c"; "d"; "e"]) 2) as (_ & _ & H & _).
  - lia.
  - split; [reflexivity|]. rewrite H. reflexivity.
Defined.

(** * Further properties of the server *)

(** ** One conversation at a time *)

Lemma append_to_first_other (cid other : string) (d : MessageDict)
    (cs cs' : list Conversation) :
  other <> cid -> append_to_first cid d cs = Some cs' ->
  first_with_id other cs' = first_with_id other cs.
Proof.
  intros Hne. revert cs'.
  induction cs as [|c cs IH]; simpl; intros cs' H; [discriminate|].
  destruct (String.eqb_spec (id c) cid) as [E|E].
  - injection H as <-. simpl.
    destruct (String.eqb_spec (id c) other) as [F|F]; [congruence|reflexivity].
  - destruct (append_to_first cid d cs) as [r|]; [|discriminate].
    injection H as <-. simpl. now rewrite (IH r eq_refl).
Qed.

Lemma store_message_other (cid other : string) (m : Message) (s : Server) :
  other <> cid ->
  get_conversation other (snd (store_message cid m s))
  = get_conversation other s.
Proof.
  intros Hne. unfold store_message, get_conversation.
  destruct (append_to_first cid (model_dump m) (conversations s)) as [cs|] eqn:E;
    simpl; [|reflexivity].
  now rewrite (append_to_first_other cid other _ _ _ Hne E).
Qed.

Lemma store_message_trace (cid : string) (m : Message) (s : Server) :
  engine_trace (snd (store_message cid m s)) = engine_trace s.
Proof.
  unfold store_message.
  now destruct (append_to_first cid (model_dump m) (conversations s)).
Qed.

(** X1. Storing a message under one id, whether it succeeds or raises,
    leaves what [get_conversation] returns for every other id as it was,
    and leaves the listing of conversations and the engine trace as they
    were. *)
Theorem store_message_leaves_other_logs (cid other : string) (m : Message)
    (s : Server) (Hne : other <> cid) :
  let s' := snd (store_message cid m s) in
  get_conversation other s' = get_conversation other s
  /\ get_all_conversations s' = get_all_conversations s
  /\ engine_trace s' = engine_trace s.
Proof.
  intros s'. split; [|split].
  - now apply store_message_other.
  - apply store_message_summaries.
  - apply store_message_trace.
Qed.

Lemma store_message_leaves_other_logs_witness :
  let s := snd (store_message "c-1" (mkMessage "user" "q0")
                  (snd (start_all [("c-1", 10%Z); ("c-2", 20%Z)] init))) in
  get_conversation "c-1" (snd (store_message "c-2" (mkMessage "user" "q1") s))
  = Return [model_dump (mkMessage "user" "q0")].
Proof.
  intros s.
  destruct (store_message_leaves_other_logs "c-2" "c-1"
              (mkMessage "user" "q1") s) as [H _].
  - discriminate.
  - rewrite H. reflexivity.
Defined.

(** What [serve] does to the registry, whatever the engine answers: either
    nothing, or one [store_message], or two. *)
Lemma serve_registry_cases (engine : Engine) (um cid : string) (s : Server) :
  let s' := snd (serve engine um cid s) in
  conversations s' = conversations s
  \/ conversations s'
     = conversations (snd (store_message cid (mkMessage "user" um) s))
  \/ exists response : string,
      conversations s'
      = conversations
          (snd (store_message cid (mkMessage "assistant" response)
                  (snd (store_message cid (mkMessage "user" um) s)))).
Proof.
  unfold serve, bind.
  destruct (store_message cid (mkMessage "user" um) s) as [[[]|e] s1] eqn:E1.
  2:{ right; left; reflexivity. }
  cbn [snd]. unfold index_as_query_engine.
  destruct (as_query_engine engine (engine_trace s1)) as [e|].
  { right; left; reflexivity. }
  unfold query_engine_query.
  destruct (query engine (engine_trace (log_event AsQueryEngine s1)) um)
    as [response|e].
  2:{ right; left; reflexivity. }
  right; right. exists response.
  unfold store_message, ret. cbn [conversations log_event].
  destruct (append_to_first cid (model_dump (mkMessage "assistant" response))
              (conversations s1)); reflexivity.
Qed.

Lemma get_conversation_registry (cid : string) (s t : Server) :
  conversations s = conversations t ->
  get_conversation cid s = get_conversation cid t.
Proof. intros H. unfold get_conversation. now rewrite H. Qed.

Lemma get_all_conversations_registry (s t : Server) :
  conversations s = conversations t ->
  get_all_conversations s = get_all_conversations t.
Proof. intros H. unfold get_all_conversations. now rewrite H. Qed.

(** X2. Whatever the engine does and however the call ends, [serve] leaves
    the listing of conversations (ids, start times and their order) as it
    was: it never creates, removes or reorders a conversation. *)
Theorem serve_keeps_listing (engine : Engine) (um cid : string) (s : Server) :
  get_all_conversations (snd (serve engine um cid s)) = get_all_conversations s.
Proof.
  destruct (serve_registry_cases engine um cid s) as [H|[H|[r H]]];
    rewrite (get_all_conversations_registry _ _ H).
  - reflexivity.
  - apply store_message_summaries.
  - now rewrite !store_message_summaries.
Qed.

(** X3. Whatever the engine does and however the call ends, [serve] on one
    id leaves what [get_conversation] returns for every other id as it
    was. *)
Theorem serve_leaves_other_logs (engine : Engine) (um cid other : string)
    (s : Server) (Hne : other <> cid) :
  get_conversation other (snd (serve engine um cid s))
  = get_conversation other s.
Proof.
  destruct (serve_registry_cases engine um cid s) as [H|[H|[r H]]];
    rewrite (get_conversation_registry other _ _ H).
  - reflexivity.
  - now apply store_message_other.
  - now rewrite !store_message_other.
Qed.

Lemma serve_leaves_other_logs_witness :
  let engine := mkEngine (fun _ => None) (fun _ q => Return ("re: " ++ q)%string) in
  let s := snd (store_message "c-1" (mkMessage "user" "q0")
                  (snd (start_all [("c-1", 10%Z); ("c-2", 20%Z)] init))) in
  get_conversation "c-1" (snd (serve engine "q1" "c-2" s))
  = Return [model_dump (mkMessage "user" "q0")].
Proof.
  intros engine s.
  rewrite (serve_leaves_other_logs engine "q1" "c-2" "c-1" s).
  - reflexivity.
  - discriminate.
Defined.

(** X4. When the id is registered and the engine returns [response],
    [serve] returns [response]; the conversation's log is its previous log
    followed by the user turn and then the assistant turn carrying
    [response]; and the engine was asked once, with the user message. *)
Theorem serve_appends_both_turns (engine : Engine) (s : Server)
    (cid um response : string)
    (Hpresent : In cid (map id (conversations s)))
    (Hengine : as_query_engine engine (engine_trace s) = None)
    (Hquery : query engine (engine_trace s ++ [AsQueryEngine]) um
              = Return response) :
  exists (log : list MessageDict) (s' : Server),
    get_conversation cid s = Return log
    /\ serve engine um cid s = (Return response, s')
    /\ get_conversation cid s'
       = Return (log ++ [model_dump (mkMessage "user" um);
                         model_dump (mkMessage "assistant" response)])
    /\ engine_trace s' = engine_trace s ++ [AsQueryEngine; Query um].
Proof.
  destruct (present_split cid _ Hpresent) as (pre & c & post & Hs & Hid & Hpre).
  destruct (serve_success engine s cid um response pre post c Hs Hid Hpre
              Hengine Hquery) as (s' & Hserve & Hcs & Htr).
  exists (messages c), s'. repeat split; auto.
  - unfold get_conversation.
    now rewrite Hs, (first_with_id_split cid pre post c Hid Hpre).
  - unfold get_conversation. rewrite Hcs.
    rewrite (first_with_id_split cid pre post
               (with_message
                  (with_message c (model_dump (mkMessage "user" um)))
                  (model_dump (mkMessage "assistant" response))) Hid Hpre).
    simpl. now rewrite <- app_assoc.
Qed.

Lemma serve_appends_both_turns_witness :
  let engine := mkEngine (fun _ => None) (fun _ q => Return ("re: " ++ q)%string) in
  let s := snd (start_new_conversation "c-1" 10 init) in
  exists (log : list MessageDict) (s' : Server),
    get_conversation "c-1" s = Return log
    /\ serve engine "q1" "c-1" s = (Return "re: q1", s')
    /\ get_conversation "c-1" s'
       = Return (log ++ [model_dump (mkMessage "user" "q1");
                         model_dump (mkMessage "assistant" "re: q1")])
    /\ engine_trace s' = engine_trace s ++ [AsQueryEngine; Query "q1"].
Proof.
  apply (serve_appends_both_turns
           (mkEngine (fun _ => None) (fun _ q => Return ("re: " ++ q)%string))
           (snd (start_new_conversation "c-1" 10 init)) "c-1" "q1" "re: q1").
  - simpl. left. reflexivity.
  - reflexivity.
  - reflexivity.
Defined.

(** ** Where a new conversation lands *)

Section StableInsertion.

Context {A : Type} (key : A -> Z).

Lemma insert_desc_front (x : A) (l : list A) :
  Forall (fun y => (key y <= key x)%Z) l -> insert_desc key x l = x :: l.
Proof.
  intros H. destruct l as [|y l]; simpl; [reflexivity|].
  inversion H as [|? ? Hy _]; subst.
  destruct (Z.ltb_spec (key x) (key y)); [lia|reflexivity].
Qed.

(** Sorting a descending list with one more item at its end puts that item
    after the items whose key is at least its own and before the others. *)
Lemma sort_reverse_snoc (x : A) (l : list A) :
  StronglySorted (key_ge key) l ->
  exists l1 l2,
    l = l1 ++ l2
    /\ sort_reverse key (l ++ [x]) = l1 ++ x :: l2
    /\ Forall (fun y => (key x <= key y)%Z) l1
    /\ Forall (fun y => (key y < key x)%Z) l2.
Proof.
  induction 1 as [|y l Hl IH Hall].
  - exists [], []. simpl. repeat split; constructor.
  - destruct IH as (l1 & l2 & El & Es & H1 & H2).
    change (sort_reverse key ((y :: l) ++ [x]))
      with (insert_desc key y (sort_reverse key (l ++ [x]))).
    rewrite Es. unfold key_ge in Hall.
    destruct (Z.le_gt_cases (key x) (key y)) as [Hxy|Hxy].
    + exists (y :: l1), l2. subst l. repeat split; auto.
      rewrite insert_desc_front; [reflexivity|].
      apply Forall_app in Hall. destruct Hall as [Ha Hb].
      apply Forall_app. split; [exact Ha|]. constructor; [exact Hxy|exact Hb].
    + destruct l1 as [|z l1].
      * exists [], (y :: l2). simpl in *. subst l. repeat split; auto.
        simpl. destruct (Z.ltb_spec (key y) (key x)); [|lia].
        now rewrite insert_desc_front.
      * exfalso. subst l. inversion Hall; subst. inversion H1; subst. lia.
Qed.

Lemma filter_insert_desc (p : A -> bool) (x : A) (l : list A) :
  (forall a b, p a = true -> p b = true -> key a = key b) ->
  filter p (insert_desc key x l) = filter p (x :: l).
Proof.
  intros Hp. induction l as [|y l IH]; [reflexivity|].
  simpl insert_desc. destruct (Z.ltb_spec (key x) (key y)) as [Hlt|Hge];
    [|reflexivity].
  simpl. simpl in IH. rewrite IH.
  destruct (p x) eqn:Ex, (p y) eqn:Ey; try reflexivity.
  specialize (Hp x y Ex Ey). lia.
Qed.

Lemma filter_sort_reverse (p : A -> bool) (l : list A) :
  (forall a b, p a = true -> p b = true -> key a = key b) ->
  filter p (sort_reverse key l) = filter p l.
Proof.
  intros Hp. induction l as [|x l IH]; [reflexivity|].
  simpl sort_reverse. rewrite (filter_insert_desc p x _ Hp).
  simpl. now rewrite IH.
Qed.

End StableInsertion.

Lemma start_new_conversation_split (uuid4 : string) (now : Z) (s : Server) :
  StronglySorted (key_ge start_time) (conversations s) ->
  exists before after : list Conversation,
    conversations s = before ++ after
    /\ conversations (snd (start_new_conversation uuid4 now s))
       = before ++ mkConversation uuid4 now [] :: after
    /\ Forall (fun c => (now <= start_time c)%Z) before
    /\ Forall (fun c => (start_time c < now)%Z) after.
Proof.
  intros Hsorted.
  destruct (sort_reverse_snoc start_time (mkConversation uuid4 now [])
              (conversations s) Hsorted) as (l1 & l2 & El & Es & H1 & H2).
  exists l1, l2. simpl. auto.
Qed.

(** X5. On a registry in descending start-time order (as every registry
    built by [start_new_conversation] is), a new conversation is placed
    after the conversations that started at the same reading or later and
    before those that started earlier; the conversations already there
    keep their places relative to each other, and the listing shows the
    new summary at that place. *)
Theorem start_new_conversation_position (uuid4 : string) (now : Z)
    (s : Server)
    (Hsorted : StronglySorted (key_ge start_time) (conversations s)) :
  exists before after : list Conversation,
    conversations s = before ++ after
    /\ conversations (snd (start_new_conversation uuid4 now s))
       = before ++ mkConversation uuid4 now [] :: after
    /\ get_all_conversations (snd (start_new_conversation uuid4 now s))
       = map summary before ++ mkSummary uuid4 now :: map summary after
    /\ Forall (fun c => (now <= start_time c)%Z) before
    /\ Forall (fun c => (start_time c < now)%Z) after.
Proof.
  destruct (start_new_conversation_split uuid4 now s Hsorted)
    as (before & after & Es & Es' & Hb & Ha).
  exists before, after. repeat split; auto.
  unfold get_all_conversations. rewrite Es', map_app. reflexivity.
Qed.

Lemma start_new_conversation_position_witness :
  let s := snd (start_all [("c-1", 10%Z); ("c-2", 30%Z)] init) in
  conversations (snd (start_new_conversation "c-3" 20 s))
  = [mkConversation "c-2" 30 []; mkConversation "c-3" 20 [];
     mkConversation "c-1" 10 []]
  /\ exists before after : list Conversation,
      conversations s = before ++ after
      /\ conversations (snd (start_new_conversation "c-3" 20 s))
         = before ++ mkConversation "c-3" 20 [] :: after
      /\ get_all_conversations (snd (start_new_conversation "c-3" 20 s))
         = map summary before ++ mkSummary "c-3" 20 :: map summary after
      /\ Forall (fun c => (20 <= start_time c)%Z) before
      /\ Forall (fun c => (start_time c < 20)%Z) after.
Proof.
  split; [reflexivity|].
  apply (start_new_conversation_position "c-3" 20
           (snd (start_all [("c-1", 10%Z); ("c-2", 30%Z)] init))).
  simpl. repeat constructor; unfold key_ge; simpl; lia.
Defined.

(** X6. On a registry in descending start-time order, when the clock
    reading of the call is later than every registered start time, the new
    conversation becomes the first of the registry and of the listing, and
    the rest follows unchanged. *)
Theorem start_new_conversation_newest_first (uuid4 : string) (now : Z)
    (s : Server)
    (Hsorted : StronglySorted (key_ge start_time) (conversations s))
    (Hlater : Forall (fun c => (start_time c < now)%Z) (conversations s)) :
  let s' := snd (start_new_conversation uuid4 now s) in
  conversations s' = mkConversation uuid4 now [] :: conversations s
  /\ get_all_conversations s' = mkSummary uuid4 now :: get_all_conversations s.
Proof.
  intros s'.
  destruct (start_new_conversation_split uuid4 now s Hsorted)
    as (before & after & Es & Es' & Hb & _).
  assert (before = []) as ->.
  { destruct before as [|c before]; [reflexivity|]. exfalso.
    rewrite Es in Hlater. inversion Hlater; subst. inversion Hb; subst. lia. }
  subst s'. unfold get_all_conversations. rewrite Es', Es.
  split; reflexivity.
Qed.

Lemma start_new_conversation_newest_first_witness :
  let s := snd (start_all [("c-1", 10%Z); ("c-2", 30%Z)] init) in
  let s' := snd (start_new_conversation "c-3" 40 s) in
  conversations s' = mkConversation "c-3" 40 [] :: conversations s
  /\ get_all_conversations s' = mkSummary "c-3" 40 :: get_all_conversations s.
Proof.
  apply (start_new_conversation_newest_first "c-3" 40
           (snd (start_all [("c-1", 10%Z); ("c-2", 30%Z)] init))).
  - simpl. repeat constructor; unfold key_ge; simpl; lia.
  - simpl. repeat constructor; simpl; lia.
Defined.

(** X7. The sort of [start_new_conversation] is stable: for every clock
    reading, the conversations that started at that reading stand in the
    registry in the order they had before the sort, the new one last. *)
Theorem start_new_conversation_stable (uuid4 : string) (now t : Z)
    (s : Server) :
  started_at t (conversations (snd (start_new_conversation uuid4 now s)))
  = started_at t (conversations s ++ [mkConversation uuid4 now []]).
Proof.
  unfold started_at. simpl. apply filter_sort_reverse.
  intros a b Ha Hb. apply Z.eqb_eq in Ha, Hb. congruence.
Qed.

(** ** Reading after creation *)

Lemma first_with_id_some (cid : string) (cs : list Conversation)
    (c : Conversation) :
  first_with_id cid cs = Some c -> In c cs /\ id c = cid.
Proof.
  induction cs as [|d cs IH]; simpl; [discriminate|].
  destruct (String.eqb_spec (id d) cid) as [E|E]; intros H.
  - injection H as <-. auto.
  - destruct (IH H). auto.
Qed.

Lemma first_with_id_present (cid : string) (cs : list Conversation) :
  In cid (map id cs) -> exists c, first_with_id cid cs = Some c.
Proof.
  intros H.
  destruct (present_split cid cs H) as (pre & c & post & -> & Hid & Hpre).
  exists c. now apply first_with_id_split.
Qed.

Lemma first_with_id_skip (cid : string) (pre post : list Conversation)
    (c : Conversation) :
  id c <> cid ->
  first_with_id cid (pre ++ c :: post) = first_with_id cid (pre ++ post).
Proof.
  intros Hne. induction pre as [|p pre IH]; simpl.
  - destruct (String.eqb_spec (id c) cid); [contradiction|reflexivity].
  - now rewrite IH.
Qed.

Lemma start_new_conversation_fresh_log (uuid4 : string) (now : Z) (s : Server) :
  ~ In uuid4 (map id (conversations s)) ->
  get_conversation uuid4 (snd (start_new_conversation uuid4 now s)) = Return [].
Proof.
  intros Hfresh.
  destruct (start_new_conversation_spec uuid4 now s) as (_ & Hp & _).
  set (s' := snd (start_new_conversation uuid4 now s)) in *.
  assert (Hin : In uuid4 (map id (conversations s'))).
  { apply (Permutation_in _ (Permutation_sym (Permutation_map id Hp))).
    rewrite map_app. apply in_or_app. right. now left. }
  destruct (first_with_id_present uuid4 _ Hin) as [c Hc].
  unfold get_conversation. rewrite Hc.
  destruct (first_with_id_some uuid4 _ c Hc) as [Hcin Hcid].
  apply (Permutation_in _ Hp) in Hcin. apply in_app_or in Hcin.
  destruct Hcin as [Hold|[<-|[]]]; [|reflexivity].
  exfalso. apply Hfresh. rewrite <- Hcid. now apply in_map.
Qed.

(** X8. When the drawn uuid is not yet registered, the id that
    [start_new_conversation] returns is registered afterwards, and
    [get_conversation] on it gives the empty log. *)
Theorem new_conversation_has_empty_log (uuid4 : string) (now : Z) (s : Server)
    (Hfresh : ~ In uuid4 (map id (conversations s))) :
  let new_id := fst (start_new_conversation uuid4 now s) in
  let s' := snd (start_new_conversation uuid4 now s) in
  In new_id (map id (conversations s'))
  /\ get_conversation new_id s' = Return [].
Proof.
  intros new_id s'. split.
  - destruct (start_new_conversation_spec uuid4 now s) as (_ & Hp & _).
    apply (Permutation_in _ (Permutation_sym (Permutation_map id Hp))).
    rewrite map_app. apply in_or_app. right. now left.
  - now apply start_new_conversation_fresh_log.
Qed.

Lemma new_conversation_has_empty_log_witness :
  let s := snd (store_message "c-1" (mkMessage "user" "q0")
                  (snd (start_new_conversation "c-1" 10 init))) in
  In "c-2" (map id (conversations (snd (start_new_conversation "c-2" 5 s))))
  /\ get_conversation "c-2" (snd (start_new_conversation "c-2" 5 s))
     = Return [].
Proof.
  apply (new_conversation_has_empty_log "c-2" 5
           (snd (store_message "c-1" (mkMessage "user" "q0")
                   (snd (start_new_conversation "c-1" 10 init))))).
  simpl. intros [E|[]]. discriminate E.
Defined.

(** X9. On a registry in descending start-time order, starting a new
    conversation leaves what [get_conversation] returns for every other id
    as it was: no stored log is lost or replaced. *)
Theorem start_new_conversation_keeps_logs (uuid4 cid : string) (now : Z)
    (s : Server)
    (Hsorted : StronglySorted (key_ge start_time) (conversations s))
    (Hne : cid <> uuid4) :
  get_conversation cid (snd (start_new_conversation uuid4 now s))
  = get_conversation cid s.
Proof.
  destruct (start_new_conversation_split uuid4 now s Hsorted)
    as (before & after & Es & Es' & _).
  unfold get_conversation. rewrite Es', Es.
  rewrite first_with_id_skip; [reflexivity|]. simpl. congruence.
Qed.

Lemma start_new_conversation_keeps_logs_witness :
  let s := snd (store_message "c-1" (mkMessage "user" "q0")
                  (snd (start_new_conversation "c-1" 10 init))) in
  get_conversation "c-1" (snd (start_new_conversation "c-2" 20 s))
  = Return [model_dump (mkMessage "user" "q0")].
Proof.
  intros s.
  rewrite (start_new_conversation_keeps_logs "c-2" "c-1" 20 s).
  - reflexivity.
  - simpl. repeat constructor.
  - discriminate.
Defined.

(** ** Endpoints *)

Lemma try_except_500_status {A : Type} (m : M A) (to_body : A -> Body)
    (s : Server) :
  status (fst (try_except_500 m to_body s)) = 200%Z
  \/ status (fst (try_except_500 m to_body s)) = 500%Z.
Proof.
  unfold try_except_500. destruct (m s) as [[a|e] s']; simpl; auto.
Qed.

(** X10. Every endpoint answers with status 200 or with status 500 and
    with no other status, whatever the request and the server; starting a
    conversation and listing the conversations always answer 200. *)
Theorem endpoints_answer_200_or_500 (engine : Engine) (body : RequestBody)
    (uuid4 cid : string) (now : Z) (s : Server) :
  let ok_or_500 (r : HttpOutcome) := status r = 200%Z \/ status r = 500%Z in
  ok_or_500 (fst (query_pipeline engine body s))
  /\ ok_or_500 (fst (get_conversation_history cid s))
  /\ fst (start_conversation uuid4 now s) = Respond (ConversationIdBody uuid4)
  /\ fst (all_conversations s)
     = Respond (ConversationsBody (get_all_conversations s)).
Proof.
  intros ok_or_500. unfold ok_or_500. repeat split.
  - apply try_except_500_status.
  - apply try_except_500_status.
Qed.

(** X11. Starting a conversation over the endpoint with an unused uuid and
    then fetching the history of the id it answered gives status 200 and
    an empty history. *)
Theorem started_conversation_has_empty_history (uuid4 : string) (now : Z)
    (s : Server) (Hfresh : ~ In uuid4 (map id (conversations s))) :
  exists s' : Server,
    start_conversation uuid4 now s = (Respond (ConversationIdBody uuid4), s')
    /\ get_conversation_history uuid4 s' = (Respond (HistoryBody []), s').
Proof.
  exists (snd (start_new_conversation uuid4 now s)). split; [reflexivity|].
  unfold get_conversation_history.
  apply try_except_500_return.
  now rewrite (start_new_conversation_fresh_log uuid4 now s Hfresh).
Qed.

Lemma started_conversation_has_empty_history_witness :
  exists s' : Server,
    start_conversation "c-1" 10 init = (Respond (ConversationIdBody "c-1"), s')
    /\ get_conversation_history "c-1" s' = (Respond (HistoryBody []), s').
Proof.
  apply (started_conversation_has_empty_history "c-1" 10 init).
  simpl. intros [].
Defined.

(** X12. A chat request for a registered id that the engine answers with
    [response] gets status 200 with exactly [response] as its text, and the
    history fetched afterwards is the previous log followed by the user
    turn and the assistant turn. *)
Theorem chat_then_history (engine : Engine) (body : RequestBody) (s : Server)
    (response : string)
    (Hpresent : In (body_conversation_id body) (map id (conversations s)))
    (Hengine : as_query_engine engine (engine_trace s) = None)
    (Hquery : query engine (engine_trace s ++ [AsQueryEngine])
                (body_user_message body) = Return response) :
  exists (log : list MessageDict) (s' : Server),
    get_conversation (body_conversation_id body) s = Return log
    /\ query_pipeline engine body s = (Respond (ResponseBody response), s')
    /\ get_conversation_history (body_conversation_id body) s'
       = (Respond
            (HistoryBody
               (log ++ [model_dump (mkMessage "user" (body_user_message body));
                        model_dump (mkMessage "assistant" response)])),
          s').
Proof.
  destruct (present_split _ _ Hpresent) as (pre & c & post & Hs & Hid & Hpre).
  destruct (serve_success engine s _ _ response pre post c Hs Hid Hpre
              Hengine Hquery) as (s' & Hserve & Hcs & _).
  exists (messages c), s'. split; [|split].
  - unfold get_conversation.
    now rewrite Hs, (first_with_id_split _ pre post c Hid Hpre).
  - unfold query_pipeline.
    rewrite (try_except_500_return _ _ s s' response Hserve).
    now rewrite join_iter_str.
  - unfold get_conversation_history. apply try_except_500_return.
    unfold get_conversation. rewrite Hcs.
    rewrite (first_with_id_split _ pre post
               (with_message
                  (with_message c
                     (model_dump (mkMessage "user" (body_user_message body))))
                  (model_dump (mkMessage "assistant" response))) Hid Hpre).
    simpl. now rewrite <- app_assoc.
Qed.

Lemma chat_then_history_witness :
  let engine := mkEngine (fun _ => None) (fun _ q => Return ("re: " ++ q)%string) in
  let s := snd (start_new_conversation "c-1" 10 init) in
  let body := mkRequestBody "c-1" "q1" [] in
  exists (log : list MessageDict) (s' : Server),
    get_conversation "c-1" s = Return log
    /\ query_pipeline engine body s = (Respond (ResponseBody "re: q1"), s')
    /\ get_conversation_history "c-1" s'
       = (Respond
            (HistoryBody
               (log ++ [model_dump (mkMessage "user" "q1");
                        model_dump (mkMessage "assistant" "re: q1")])),
          s').
Proof.
  apply (chat_then_history
           (mkEngine (fun _ => None) (fun _ q => Return ("re: " ++ q)%string))
           (mkRequestBody "c-1" "q1" [])
           (snd (start_new_conversation "c-1" 10 init)) "re: q1").
  - simpl. left. reflexivity.
  - reflexivity.
  - reflexivity.
Defined.

(** ** Batches *)

Lemma batch_step {A : Type} (it : list A) (n : nat) :
  batch it n
  = match firstn n it with
    | [] => []
    | chunk => chunk :: batch (skipn n it) n
    end.
Proof.
  funelim (batch it n);
    match goal with E : firstn _ _ = _ |- _ => rewrite E end; reflexivity.
Qed.

Lemma batch_nil {A : Type} (n : nat) : batch (@nil A) n = [].
Proof. rewrite batch_step. now rewrite firstn_nil. Qed.

Lemma batch_zero {A : Type} (it : list A) : batch it 0 = [].
Proof. rewrite batch_step. reflexivity. Qed.

Lemma batch_whole {A : Type} (it : list A) (n : nat) :
  0 < List.length it <= n -> batch it n = [it].
Proof.
  intros [Hpos Hle]. rewrite batch_step.
  rewrite (firstn_all2 it Hle), (skipn_all2 it Hle), batch_nil.
  destruct it; [simpl in Hpos; lia|reflexivity].
Qed.

(** X13. Once the splitter is built, batch size 0 makes the chunker
    return no nodes, whatever the documents, without consulting the
    splitter (the documents are dropped without an error), and so does an
    empty document list for every batch size. When building the splitter
    raises, the chunker raises that exception even then, with nothing to
    split. *)
Theorem chunk_documents_nothing_to_split {Node : Type}
    (splitter : Splitter Node) (documents : list Document) (batch_size : nat)
    (e : PyExn) :
  batch documents 0 = []
  /\ chunk_documents (Return splitter) documents 0 = Return []
  /\ chunk_documents (Return splitter) [] batch_size = Return []
  /\ chunk_documents (@Raise (Splitter Node) e) documents 0 = Raise e
  /\ chunk_documents (@Raise (Splitter Node) e) [] batch_size = Raise e.
Proof.
  unfold chunk_documents. rewrite batch_zero, batch_nil. repeat split.
Qed.

(** X14. When all the documents fit in one batch, the splitter is applied
    once, to the whole document list, and its outcome (nodes or exception)
    is the chunker's outcome. *)
Theorem chunk_documents_single_batch {Node : Type} (splitter : Splitter Node)
    (documents : list Document) (batch_size : nat)
    (Hfit : 0 < List.length documents <= batch_size) :
  batch documents batch_size = [documents]
  /\ chunk_documents (Return splitter) documents batch_size = splitter documents.
Proof.
  split; [now apply batch_whole|].
  unfold chunk_documents. rewrite (batch_whole documents batch_size Hfit).
  simpl. now destruct (splitter documents).
Qed.

Lemma chunk_documents_single_batch_witness :
  let docs := map mkDocument ["a"; "b"; "c"] in
  let splitter : Splitter string :=
    fun b => Return [String.concat "+" (map text b)] in
  batch docs 32 = [docs]
  /\ chunk_documents (Return splitter) docs 32 = Return ["a+b+c"].
Proof.
  intros docs splitter.
  destruct (chunk_documents_single_batch splitter docs 32) as [Hb Hc].
  - simpl. lia.
  - split; [exact Hb|]. rewrite Hc. reflexivity.
Defined.

Lemma batch_full_batches {A : Type} (it : list A) (n : nat) :
  Forall (fun b => List.length b = n) (removelast (batch it n)).
Proof.
  funelim (batch it n); [constructor|].
  match goal with E : firstn _ _ = _ |- _ => rename E into Hfirst end.
  destruct (batch (skipn n it) n) as [|b bs] eqn:Erest; [constructor|].
  change (removelast ((a :: l) :: b :: bs))
    with ((a :: l) :: removelast (b :: bs)).
  constructor; [|assumption].
  rewrite <- Hfirst, length_firstn.
  assert (skipn n it <> []) as Hne.
  { intros Hnil. rewrite Hnil, batch_nil in Erest. discriminate. }
  assert (n < List.length it).
  { destruct (Nat.lt_ge_cases n (List.length it)) as [Hlt|Hge]; [exact Hlt|].
    exfalso. apply Hne. now apply skipn_all2. }
  lia.
Qed.

Lemma batch_count {A : Type} (it : list A) (n : nat) :
  0 < n -> List.length (batch it n) = (List.length it + n - 1) / n.
Proof.
  funelim (batch it n); intros Hn.
  - match goal with E : firstn _ _ = _ |- _ => rename E into Hfirst end.
    assert (it = []) as ->.
    { destruct n; [lia|]. destruct it; [reflexivity|discriminate]. }
    simpl. symmetry. apply Nat.div_small. lia.
  - match goal with E : firstn _ _ = _ |- _ => rename E into Hfirst end.
    match goal with IH : _ -> List.length _ = _ |- _ => rename IH into IHb end.
    simpl. rewrite (IHb Hn), length_skipn.
    assert (0 < List.length it).
    { destruct it; [now rewrite firstn_nil in Hfirst|simpl; lia]. }
    destruct (Nat.lt_ge_cases (List.length it) n) as [Hlt|Hge].
    + replace (List.length it - n + n - 1) with (n - 1) by lia.
      rewrite (Nat.div_small (n - 1) n) by lia.
      apply (Nat.div_unique _ _ 1 (List.length it - 1)); lia.
    + replace (List.length it + n - 1)
        with ((List.length it - n + n - 1) + 1 * n) by lia.
      rewrite Nat.div_add by lia. lia.
Qed.

(** X15. For a batch size above zero the number of batches is the number
    of documents divided by the batch size, rounded up, and every batch
    except the last holds exactly [batch_size] documents. *)
Theorem batch_count_and_full_batches (documents : list Document)
    (batch_size : nat) (Hpos : 0 < batch_size) :
  List.length (batch documents batch_size)
  = (List.length documents + batch_size - 1) / batch_size
  /\ Forall (fun b => List.length b = batch_size)
       (removelast (batch documents batch_size)).
Proof.
  split; [now apply batch_count|apply batch_full_batches].
Qed.

Lemma batch_count_and_full_batches_witness :
  let docs := map mkDocument ["a"; "b"; "c"; "d"; "e"; "f"; "g"] in
  List.length (batch docs 3) = 3
  /\ Forall (fun b => List.length b = 3) (removelast (batch docs 3)).
Proof.
  apply (batch_count_and_full_batches
           (map mkDocument ["a"; "b"; "c"; "d"; "e"; "f"; "g"]) 3).
  lia.
Defined.

Lemma split_each_first_failure {Node : Type} (splitter : Splitter Node)
    (pre post : list (list Document)) (b : list Document) (e : PyExn) :
  Forall (fun x => exists o, splitter x = Return o) pre ->
  splitter b = Raise e ->
  split_each splitter (pre ++ b :: post) = Raise e.
Proof.
  intros Hpre Hb. induction Hpre as [|x pre [o Ho] _ IH]; simpl.
  - now rewrite Hb.
  - now rewrite Ho, IH.
Qed.

(** X16. When the splitter raises on a batch and returned nodes on all the
    batches before it, the chunker raises that exception: the nodes of the
    earlier batches are not returned and the later batches are not
    split. *)
Theorem chunk_documents_first_failure {Node : Type} (splitter : Splitter Node)
    (documents : list Document) (batch_size : nat)
    (pre post : list (list Document)) (b : list Document) (e : PyExn)
    (Hbatches : batch documents batch_size = pre ++ b :: post)
    (Hpre : Forall (fun x => exists o, splitter x = Return o) pre)
    (Hb : splitter b = Raise e) :
  chunk_documents (Return splitter) documents batch_size = Raise e.
Proof.
  unfold chunk_documents. rewrite extend_over_split_each, Hbatches.
  now rewrite (split_each_first_failure splitter pre post b e Hpre Hb).
Qed.

Lemma chunk_documents_first_failure_witness :
  let splitter : Splitter string :=
    fun b => match b with
             | [d] => Raise (mkExn "RuntimeError" "embedding failed")
             | _ => Return (map text b)
             end in
  chunk_documents (Return splitter) (map mkDocument ["a"; "b"; "c"]) 2
  = Raise (mkExn "RuntimeError" "embedding failed").
Proof.
  intros splitter.
  apply (chunk_documents_first_failure splitter
           (map mkDocument ["a"; "b"; "c"]) 2
           [[mkDocument "a"; mkDocument "b"]] [] [mkDocument "c"]).
  - reflexivity.
  - constructor; [|constructor]. eexists. reflexivity.
  - reflexivity.
Defined.

Lemma split_each_document_wise {Node : Type} (g : Document -> list Node)
    (batches : list (list Document)) :
  split_each (document_wise g) batches = Return (map (flat_map g) batches).
Proof.
  induction batches as [|b batches IH]; simpl; [reflexivity|].
  now rewrite IH.
Qed.

Lemma concat_map_flat_map {A B : Type} (g : A -> list B) (ls : list (list A)) :
  List.concat (map (flat_map g) ls) = flat_map g (List.concat ls).
Proof.
  induction ls as [|l ls IH]; simpl; [reflexivity|].
  now rewrite flat_map_app, IH.
Qed.

(** X17. With a splitter that treats each document on its own, the chunker
    returns the nodes of the documents in document order, the same for
    every batch size above zero: batching changes nothing in the result. *)
Theorem chunk_documents_batch_size_irrelevant {Node : Type}
    (g : Document -> list Node) (documents : list Document)
    (batch_size : nat) (Hpos : 0 < batch_size) :
  chunk_documents (Return (document_wise g)) documents batch_size
  = Return (flat_map g documents).
Proof.
  unfold chunk_documents.
  rewrite extend_over_split_each, split_each_document_wise. simpl.
  now rewrite concat_map_flat_map, (batch_concat documents batch_size Hpos).
Qed.

Lemma chunk_documents_batch_size_irrelevant_witness :
  let g := fun d : Document => [text d; text d] in
  let docs := map mkDocument ["a"; "b"; "c"] in
  chunk_documents (Return (document_wise g)) docs 1
  = chunk_documents (Return (document_wise g)) docs 3.
Proof.
  intros g docs.
  rewrite (chunk_documents_batch_size_irrelevant g docs 1) by lia.
  rewrite (chunk_documents_batch_size_irrelevant g docs 3) by lia.
  reflexivity.
Defined.

(** X18. At startup an empty recipe table gives no nodes and no error, and
    a table of at most 32 rows is split in one call on the documents of
    all its rows. *)
Theorem on_startup_small_table {Node : Type} (splitter : Splitter Node)
    (recipes : list Row) :
  on_startup_nodes splitter [] = Return []
  /\ (0 < List.length recipes <= 32 ->
      on_startup_nodes splitter recipes = splitter (load_documents recipes)).
Proof.
  unfold on_startup_nodes. split.
  - unfold chunk_documents.
    change (load_documents []) with (@nil Document).
    now rewrite batch_nil.
  - intros Hfit. unfold chunk_documents.
    rewrite batch_whole.
    + simpl. now destruct (splitter (load_documents recipes)).
    + unfold load_documents. now rewrite !length_map.
Qed.

Lemma on_startup_small_table_witness :
  let splitter : Splitter string := fun b => Return (map text b) in
  on_startup_nodes splitter [moussaka]
  = Return [recipe_text_template moussaka].
Proof.
  intros splitter.
  destruct (on_startup_small_table splitter [moussaka]) as [_ H].
  rewrite H; [reflexivity|simpl; lia].
Defined.

(** ** Rendered recipes *)

Lemma contains_app_right (needle before haystack : string) :
  contains needle haystack = true ->
  contains needle (before ++ haystack)%string = true.
Proof.
  intros H. induction before as [|c before IH]; [exact H|].
  simpl. rewrite IH. apply orb_true_r.
Qed.

Lemma contains_concat_in (x : string) (l : list string) :
  In x l -> contains x (String.concat "" l) = true.
Proof.
  intros H. apply in_split in H. destruct H as (l1 & l2 & ->).
  rewrite concat_empty_app, concat_empty_cons. apply contains_middle.
Qed.

(** X19. The rendered text of a record always begins with the head clause
    (name, category, ingredients), and for every optional field that holds
    a value the clause rendered from that value occurs in the text. *)
Theorem present_clauses_occur (row : Row)
    (rule : (Row -> Cell) * (string -> string)) (v : string)
    (Hrule : In rule optional_rules) (Hvalue : fst rule row = Value v) :
  String.prefix (head_clause row) (recipe_text_template row) = true
  /\ contains (snd rule v) (recipe_text_template row) = true.
Proof.
  rewrite recipe_text_template_by_rules. unfold render_by_rules. split.
  - apply prefix_app.
  - apply contains_app_right, contains_concat_in.
    apply in_flat_map. exists rule. split; [exact Hrule|].
    unfold clause_of. rewrite Hvalue. now left.
Qed.

Lemma present_clauses_occur_witness :
  String.prefix (head_clause moussaka) (recipe_text_template moussaka) = true
  /\ contains "και συνολικά παίρνει 90 λεπτά. "
       (recipe_text_template moussaka) = true.
Proof.
  apply (present_clauses_occur moussaka (Total_Time, total_time_clause)
           "90 λεπτά").
  - simpl. right. left. reflexivity.
  - reflexivity.
Defined.

(** ** Client and server together *)

(** X20. Against a reachable server, [query_fastapi] returns the generated
    text whenever [serve] returns it, and one fixed apology whenever
    [serve] raises, whichever exception it was: an unknown conversation id
    and a failing engine look the same to the user. The server is left as
    [serve] left it. *)
Theorem client_sees_text_or_apology (engine : Engine) (um cid : string)
    (session_messages : list Message) (s : Server) :
  fst (App.ask engine um cid session_messages s)
  = match fst (serve engine um cid s) with
    | Return response => response
    | Raise _ => App.trouble_connecting
    end
  /\ snd (App.ask engine um cid session_messages s)
     = snd (serve engine um cid s).
Proof.
  unfold App.ask, App.chat_payload, query_pipeline, try_except_500. simpl.
  destruct (serve engine um cid s) as [[response|e] s']; simpl.
  - now rewrite join_iter_str.
  - split; reflexivity.
Qed.

(** X21. Against a reachable server and for a non-empty id made of
    letters, digits and hyphens, [fetch_conversation_history] returns the
    stored log and shows no error when the id is registered, and returns
    the empty list with an error message when it is not: by the returned
    list alone an unknown conversation cannot be told from an empty one. *)
Theorem client_history_or_empty (cid : string) (s : Server)
    (Hplain : App.plain_id cid = true) :
  App.history_of cid s
  = Some match get_conversation cid s with
         | Return log => (log, None)
         | Raise _ =>
             ([],
              Some "Failed to fetch conversation history. Please try again.")
         end.
Proof.
  unfold App.history_of. rewrite Hplain.
  unfold get_conversation_history, try_except_500.
  destruct (get_conversation cid s) as [log|e]; reflexivity.
Qed.

Lemma client_history_or_empty_witness :
  let s := snd (start_new_conversation "c-1" 10 init) in
  App.history_of "c-1" s = Some ([], None)
  /\ App.history_of "c-9" s
     = Some ([], Some "Failed to fetch conversation history. Please try again.").
Proof.
  intros s. split.
  - rewrite (client_history_or_empty "c-1" s); reflexivity.
  - rewrite (client_history_or_empty "c-9" s); reflexivity.
Defined.

Lemma listed_id_registered (c : Summary) (s : Server) :
  In c (get_all_conversations s) ->
  In (summary_id c) (map id (conversations s)).
Proof.
  unfold get_all_conversations. intros H.
  apply in_map_iff in H. destruct H as (d & <- & Hd).
  simpl. now apply in_map.
Qed.

(** X22. Every conversation the sidebar lists under a non-empty id made of
    letters, digits and hyphens can be opened: for each such summary that
    [fetch_all_conversations] returns from a reachable server,
    [fetch_conversation_history] on its id returns a log stored under that
    id and shows no error. *)
Theorem listed_conversation_opens (c : Summary) (s : Server)
    (Hlisted : In c (fst (App.sidebar_of s)))
    (Hplain : App.plain_id (summary_id c) = true) :
  exists log : list MessageDict,
    get_conversation (summary_id c) s = Return log
    /\ App.history_of (summary_id c) s = Some (log, None).
Proof.
  assert (Hin : In c (get_all_conversations s)) by exact Hlisted.
  apply listed_id_registered in Hin.
  destruct (first_with_id_present _ _ Hin) as [d Hd].
  exists (messages d).
  assert (Hget : get_conversation (summary_id c) s = Return (messages d)).
  { unfold get_conversation. now rewrite Hd. }
  split; [exact Hget|].
  unfold App.history_of. rewrite Hplain.
  unfold get_conversation_history, try_except_500.
  now rewrite Hget.
Qed.

Lemma listed_conversation_opens_witness :
  let s := snd (store_message "c-1" (mkMessage "user" "q0")
                  (snd (start_all [("c-1", 10%Z); ("c-2", 20%Z)] init))) in
  exists log : list MessageDict,
    get_conversation "c-1" s = Return log
    /\ App.history_of "c-1" s = Some (log, None).
Proof.
  intros s.
  apply (listed_conversation_opens (mkSummary "c-1" 10) s).
  - simpl. right. left. reflexivity.
  - reflexivity.
Defined.
